(** * The node-flow context of the topology editor

    A shallow embedding of [NodeGraphFlowProvider] and [useNodeFlowContext]
    (frontend/src/contexts/node-flow-context.tsx), the React context that
    holds the nodes and edges of the edited topology, the edit dialog's flag
    and the node being edited, and the callbacks that change them.

    Reading guide.
    - A render of the provider closes its callbacks over the values of its
      [useState] cells.  A callback is embedded as a function from the store
      of the render it was created in to the store of the next render: it
      reads the cells of its argument and the setters it calls build the
      result.  No callback reads a cell after setting it.
    - Arrays, nodes and edges are never written to after they are stored, so
      they are embedded as values.  The [data] object of a node is written in
      place by [updateNodeInfo] while the node collection may hold the same
      object; data objects therefore live in a heap and nodes hold
      references to them.
    - A callback that runs into a [TypeError] has called no setter by then. *)

From Stdlib Require Import QArith.
From stdpp Require Import gmap strings list pretty sorting.

Open Scope string_scope.
Open Scope list_scope.

(** ** JavaScript values *)

(** The primitive values an identifier or a property of a data object takes.
    Numbers are the integers; [NaN] and fractions do not occur among counts
    and identifiers.  The embedding adds and prints them as integers, which
    is what the code's doubles do between [-2^53] and [2^53]; beyond, a
    double rounds the sum and prints an exponent.  On these values [===] is
    Leibniz equality. *)
Inductive jsval : Type :=
  | JUndefined
  | JNull
  | JNumber (n : Z)
  | JString (s : string).

#[global] Instance jsval_eq_dec : EqDecision jsval.
Proof. solve_decision. Defined.

#[global] Instance jsval_inhabited : Inhabited jsval := populate JUndefined.

(** What a callback hands back: a value, or the exception it threw. *)
Inductive js_error : Type :=
  | TypeError
  | Error (message : string).

Inductive result (A : Type) : Type :=
  | Return (a : A)
  | Throw (e : js_error).
Arguments Return {A} a.
Arguments Throw {A} e.

#[global] Instance result_ret : MRet result := @Return.

#[global] Instance result_bind : MBind result := λ A B k x,
  match x with
  | Return a => k a
  | Throw e => Throw e
  end.

(** [String(v)], as a template literal [`${v}`] and [+] with a string
    operand compute it. *)
Definition to_string (v : jsval) : string :=
  match v with
  | JUndefined => "undefined"
  | JNull => "null"
  | JNumber n => pretty n
  | JString s => s
  end.

(** [s.includes(t)]: [t] occurs in [s]. *)
Fixpoint includes (s t : string) : bool :=
  String.prefix t s ||
  match s with
  | EmptyString => false
  | String _ s' => includes s' t
  end.

(** ** Data objects and the heap *)

(** A reference to a data object. *)
Definition loc : Type := positive.

(** A data object ([Partial<GraphNode>], written to under any property name
    by [updateNodeInfo]) maps property names to values; the heap holds the
    data objects that nodes refer to. *)
Abbreviation data_object := (gmap string jsval).
Abbreviation heap_t := (gmap loc (gmap string jsval)).

(** [o[p]] for the object at [l]: a property the object lacks reads as
    [undefined]. *)
Definition get (h : heap_t) (l : loc) (p : string) : jsval :=
  match h !! l with
  | Some o => default JUndefined (o !! p)
  | None => JUndefined
  end.

(** [o[p] = v] for the object at [l], in place.  This is what the
    assignment does for every property name but "__proto__", which a data
    object takes for its prototype and not for a property of its own; the
    theorems on written values leave that name out. *)
Definition put (h : heap_t) (l : loc) (p : string) (v : jsval) : heap_t :=
  alter (λ o, <[p := v]> o) l h.

(** A new object literal: a reference no object of the heap has yet. *)
Definition alloc (h : heap_t) (o : data_object) : loc * heap_t :=
  let l := fresh (dom h) in (l, <[l := o]> h).

(** ** Nodes, edges and personas *)

Module XYPosition.
Record t : Type := mk { x : Q; y : Q }.
End XYPosition.

(** reactflow's [Node<Partial<GraphNode>>].  [id] is declared a string, yet
    the code provides for a missing one ([?? 0]) and adds a number to it, so
    it ranges over [jsval].  [data] is [None] where the code's [data?.]
    finds nothing.  [rest] holds the properties the provider never names;
    a spread copies them. *)
Module Node.
Record t : Type := mk {
    id : jsval;
    data : option loc;
    type : option string;
    position : option XYPosition.t;
    rest : gmap string jsval
  }.
End Node.

(** reactflow's [Edge<Partial<GraphEdge>>]: [rest] holds every property
    other than [id], [source] and [target] (label, style, markers...). *)
Module Edge.
Record t : Type := mk {
    id : jsval;
    source : jsval;
    target : jsval;
    rest : gmap string jsval
  }.
End Edge.

(** Modelled from the spec: [NodePersona], [NodePersonaType] and
    [NetworkTopology] are declared in flowTypes, which is not among the
    sources.  A persona is a preset bundle of a node set and an edge set; a
    topology pairs it with the name of its kind. *)
Module NodePersona.
Record t : Type := mk {
    nodes : list Node.t;
    edges : list Edge.t;
    rest : gmap string jsval
  }.
End NodePersona.

Definition NodePersonaType : Type := string.

Module NetworkTopology.
Record t : Type := mk {
    type : NodePersonaType;
    nodePersona : NodePersona.t
  }.
End NetworkTopology.

(** ** The store: the provider's state cells, and the heap *)

Record Store : Type := mkStore {
  heap : heap_t;
  isDialogOpen : bool;
  showGraph : bool;
  nodes : list Node.t;
  edges : list Edge.t;
  nodePersonaType : option NodePersonaType;
  nodePersona : option NodePersona.t;
  nodeInfo : option Node.t
}.

(** The setters of the state cells. *)
Definition setIsDialogOpen (v : bool) (s : Store) : Store :=
  mkStore (heap s) v (showGraph s) (nodes s) (edges s)
          (nodePersonaType s) (nodePersona s) (nodeInfo s).

Definition setShowGraph (v : bool) (s : Store) : Store :=
  mkStore (heap s) (isDialogOpen s) v (nodes s) (edges s)
          (nodePersonaType s) (nodePersona s) (nodeInfo s).

Definition setNodes (v : list Node.t) (s : Store) : Store :=
  mkStore (heap s) (isDialogOpen s) (showGraph s) v (edges s)
          (nodePersonaType s) (nodePersona s) (nodeInfo s).

Definition setEdges (v : list Edge.t) (s : Store) : Store :=
  mkStore (heap s) (isDialogOpen s) (showGraph s) (nodes s) v
          (nodePersonaType s) (nodePersona s) (nodeInfo s).

Definition setNodePersonaType (v : option NodePersonaType) (s : Store) : Store :=
  mkStore (heap s) (isDialogOpen s) (showGraph s) (nodes s) (edges s)
          v (nodePersona s) (nodeInfo s).

Definition setNodePersona (v : option NodePersona.t) (s : Store) : Store :=
  mkStore (heap s) (isDialogOpen s) (showGraph s) (nodes s) (edges s)
          (nodePersonaType s) v (nodeInfo s).

Definition setNodeInfo (v : option Node.t) (s : Store) : Store :=
  mkStore (heap s) (isDialogOpen s) (showGraph s) (nodes s) (edges s)
          (nodePersonaType s) (nodePersona s) v.

(** Not a state cell: what a write to a data object or a new object literal
    leaves behind. *)
Definition setHeap (h : heap_t) (s : Store) : Store :=
  mkStore h (isDialogOpen s) (showGraph s) (nodes s) (edges s)
          (nodePersonaType s) (nodePersona s) (nodeInfo s).

(** ** The callbacks of [NodeGraphFlowProvider] *)

Definition openDialog (s : Store) : Store := setIsDialogOpen true s.

Definition closeDialog (s : Store) : Store :=
  setNodeInfo None (setIsDialogOpen false s).

(** [setEdges([...edge])]: the copy holds the elements of [edge] in order. *)
Definition setNodeEdges (edge : list Edge.t) (s : Store) : Store :=
  setEdges edge s.

Definition setNodePersonaFunc (topology : NetworkTopology.t) (r : Store)
  : result Store :=
  let type := NetworkTopology.type topology in
  let nodePersona := NetworkTopology.nodePersona topology in
  Return (setNodeEdges (NodePersona.edges nodePersona)
         (setNodes (NodePersona.nodes nodePersona)
         (setNodePersona (Some nodePersona)
         (setNodePersonaType (Some type) r)))).

Definition showGraphFunc (r : Store) : result Store :=
  Return (setShowGraph true r).

(** [nodes.filter(f)] where [f] may throw: the first exception ends the
    traversal. *)
Fixpoint array_filter {A : Type} (f : A → result bool) (l : list A)
  : result (list A) :=
  match l with
  | [] => Return []
  | a :: l' =>
      b ← f a;
      kept ← array_filter f l';
      Return (if b : bool then a :: kept else kept)
  end.

(** [node.data?.label]: [undefined] when the node has no data. *)
Definition label_of (h : heap_t) (node : Node.t) : jsval :=
  match Node.data node with
  | None => JUndefined
  | Some l => get h l "label"
  end.

(** [node.data?.label.includes("new node")]: without data the whole chain
    is [undefined], which [filter] takes for false; with data, [includes]
    is a method of strings only. *)
Definition mentions_new_node (h : heap_t) (node : Node.t) : result bool :=
  match Node.data node with
  | None => Return false
  | Some l =>
      match get h l "label" with
      | JString s => Return (includes s "new node")
      | _ => Throw TypeError
      end
  end.

(** [(id ?? 0) + 1]: [??] replaces [undefined] and [null] by [0]; [+] adds
    numbers and, with a string operand, concatenates. *)
Definition next_id (id : jsval) : jsval :=
  match id with
  | JUndefined | JNull => JNumber (0 + 1)
  | JNumber n => JNumber (n + 1)
  | JString s => JString (s +:+ to_string (JNumber 1))
  end.

Section Canvas.

(** The canvas size of the configuration module, which is not among the
    sources. *)
Variables CANVAS_WIDTH CANVAS_HEIGHT : Q.

(** Returns the new node and the heap that holds its data object. *)
Definition createNewNode (r : Store) : result (Node.t * heap_t) :=
  newNodes ← array_filter (mentions_new_node (heap r)) (nodes r);
  let newNodesNumber := length newNodes in
  lastNode ← match last (nodes r) with
             | Some node => Return node
             | None => Throw TypeError
             end;
  let id := next_id (Node.id lastNode) in
  let '(l, h) :=
    alloc (heap r)
      {[ "label" := JString ("new node " +:+ pretty newNodesNumber);
         "name" := JString ("new node " +:+ pretty newNodesNumber) ]} in
  Return (Node.mk id (Some l) (Some "draggable")
            (Some (XYPosition.mk (CANVAS_WIDTH / 2) (CANVAS_HEIGHT / 2))) ∅,
          h).

Definition addNode (node : option Node.t) (r : Store) : result Store :=
  '(newNode, h) ← match node with
                  | Some node => Return (node, heap r)
                  | None => createNewNode r
                  end;
  Return (openDialog
         (setNodeInfo (Some newNode)
         (setNodes (nodes r ++ [newNode])
         (setHeap h r)))).

Definition editNode (node : Node.t) (r : Store) : result Store :=
  Return (openDialog (setNodeInfo (Some node) r)).

Definition duplicateNode (node : Node.t) (r : Store) : result Store :=
  let length := length (nodes r) in
  let '(l, h) :=
    alloc (heap r)
      {[ "label" := JString (to_string (label_of (heap r) node) +:+ " duplicate");
         "name" := JString (to_string (label_of (heap r) node) +:+ " duplicate") ]} in
  let duplicateNode :=
    Node.mk (JString (pretty length)) (Some l)
            (Node.type node) (Node.position node) (Node.rest node) in
  addNode (Some duplicateNode) (setHeap h r).

End Canvas.

(** The write goes to the data object itself, which the node collection
    may hold too; the copy [duplNode] shares it. *)
Definition updateNodeInfo (nodeProperty : string) (value : jsval) (r : Store)
  : result Store :=
  match nodeInfo r with
  | None => Return r
  | Some nodeInfo =>
      let duplNode := nodeInfo in
      match Node.data duplNode with
      | None => Throw TypeError
      | Some l =>
          Return (setNodeInfo (Some duplNode)
                 (setHeap (put (heap r) l nodeProperty value) r))
      end
  end.

(** [nodes.findIndex(f)]: the first index whose element satisfies [f];
    [None] stands for [-1]. *)
Fixpoint findIndex {A : Type} (f : A → bool) (l : list A) : option nat :=
  match l with
  | [] => None
  | a :: l' => if f a then Some 0 else S <$> findIndex f l'
  end.

Definition saveEditedNode (r : Store) : result Store :=
  match nodeInfo r with
  | None => Return r
  | Some nodeInfo =>
      match findIndex (λ node, bool_decide (Node.id node = Node.id nodeInfo))
                      (nodes r) with
      | Some nodeIndex =>
          let newList := <[nodeIndex := nodeInfo]> (nodes r) in
          let newEdges := edges r in
          let strippedEdges :=
            (λ e, Edge.mk (Edge.id e) (Edge.source e) (Edge.target e) ∅)
              <$> newEdges in
          Return (closeDialog (setEdges strippedEdges (setNodes newList r)))
      | None => Return r
      end
  end.

Definition deleteNode (node : Node.t) (r : Store) : result Store :=
  let updatedNodes := filter (λ n, Node.id n ≠ Node.id node) (nodes r) in
  let newEdges :=
    filter (λ e, ¬ (Edge.source e = Node.id node ∨ Edge.target e = Node.id node))
           (edges r) in
  Return (setNodes updatedNodes (setEdges newEdges r)).

(** ** [useNodeFlowContext] *)

(** What [React.useContext(nodeFlowContext)] can evaluate to. *)
Inductive context_value : Type :=
  | ContextUndefined
  | ContextNull
  | ContextOf (value : Store).

(** [React.createContext<NodeGraphContext>(null!)]: the default value. *)
Definition nodeFlowContext : context_value := ContextNull.

(** [React.useContext(c)]: the value of the nearest enclosing provider, the
    default value of [c] when there is none. *)
Definition useContext (c : context_value) (provider : option Store)
  : context_value :=
  match provider with
  | Some value => ContextOf value
  | None => c
  end.

Definition useNodeFlowContext (provider : option Store) : result context_value :=
  let context := useContext nodeFlowContext provider in
  match context with
  | ContextUndefined =>
      Throw (Error "useNodeGraphContext must be used within a NodeGraphProvider")
  | _ => Return context
  end.

(** ** Sequences of calls *)

Inductive call : Type :=
  | AddNode (node : option Node.t)
  | DeleteNode (node : Node.t).

(** The store of the render that follows a call: what the setters built, or
    the store as it was when the call threw before any setter ran. *)
Definition next_render (r : Store) (outcome : result Store) : Store :=
  match outcome with
  | Return s => s
  | Throw _ => r
  end.

Section Calls.

Variables CANVAS_WIDTH CANVAS_HEIGHT : Q.

Definition dispatch (c : call) (r : Store) : result Store :=
  match c with
  | AddNode node => addNode CANVAS_WIDTH CANVAS_HEIGHT node r
  | DeleteNode node => deleteNode node r
  end.

Definition run (calls : list call) (r : Store) : Store :=
  foldl (λ r c, next_render r (dispatch c r)) r calls.

End Calls.

(** ** Properties of the specification *)

(** Some node of the collection has the identifier [i]. *)
Definition has_node (r : Store) (i : jsval) : Prop :=
  Exists (λ n, Node.id n = i) (nodes r).

(** Every edge runs between two nodes of the collection. *)
Definition referential_integrity (r : Store) : Prop :=
  Forall (λ e, has_node r (Edge.source e) ∧ has_node r (Edge.target e))
         (edges r).

#[global] Instance has_node_dec r i : Decision (has_node r i).
Proof. unfold has_node. apply _. Defined.

#[global] Instance referential_integrity_dec r : Decision (referential_integrity r).
Proof. unfold referential_integrity. apply _. Defined.

(** The default node can be synthesized from a node that has no data or
    whose label is a string. *)
Definition is_string (v : jsval) : bool :=
  match v with
  | JString _ => true
  | _ => false
  end.

Definition label_usable (h : heap_t) (n : Node.t) : Prop :=
  match Node.data n with
  | None => True
  | Some l => is_string (get h l "label")
  end.

#[global] Instance label_usable_dec h n : Decision (label_usable h n).
Proof. unfold label_usable. destruct (Node.data n); apply _. Defined.

(** The nodes counted for the label of the default node: those whose label
    is a string in which "new node" occurs. *)
Definition label_has_marker (h : heap_t) (n : Node.t) : bool :=
  match label_of h n with
  | JString s => includes s "new node"
  | _ => false
  end.

(** The edge [e'] is the edge [e] reduced to identifier, source and target. *)
Definition stripped (e e' : Edge.t) : Prop :=
  Edge.id e' = Edge.id e ∧ Edge.source e' = Edge.source e ∧
  Edge.target e' = Edge.target e ∧ Edge.rest e' = ∅.

(** ** Stores of the scenarios *)

(** A node that has an identifier and nothing else. *)
Definition bare_node (i : jsval) : Node.t := Node.mk i None None None ∅.

Definition bare_edge (i source target : jsval) : Edge.t :=
  Edge.mk i source target ∅.

(** A store that holds the given nodes and edges, the dialog closed. *)
Definition store_of (h : heap_t) (ns : list Node.t) (es : list Edge.t) : Store :=
  mkStore h false false ns es None None None.

(** Nodes [a] and [b] and the edge [e1] from [a] to [b]. *)
Definition store_ab : Store :=
  store_of ∅ [bare_node (JString "a"); bare_node (JString "b")]
             [bare_edge (JString "e1") (JString "a") (JString "b")].

(** Two nodes share the identifier [a]. *)
Definition store_aba : Store :=
  store_of ∅
    [bare_node (JString "a"); bare_node (JString "b"); bare_node (JString "a");
     bare_node (JString "c")]
    [bare_edge (JString "e1") (JString "a") (JString "b");
     bare_edge (JString "e2") (JString "c") (JString "b");
     bare_edge (JString "e3") (JString "b") (JString "a");
     bare_edge (JString "e4") (JString "b") (JString "c")].

(** The edit buffer holds a copy of the node [a] that has got a type; two
    nodes have the identifier [a]; the edge [e1] carries a label. *)
Definition edited_a : Node.t :=
  Node.mk (JString "a") None (Some "draggable") None ∅.

Definition store_editing_a : Store :=
  mkStore ∅ true false
    [bare_node (JString "b"); bare_node (JString "a"); bare_node (JString "a")]
    [Edge.mk (JString "e1") (JString "a") (JString "b")
             {[ "label" := JString "link" ]}]
    None None (Some edited_a).

(** The node being edited is not in the collection. *)
Definition store_editing_stranger : Store :=
  mkStore ∅ true false [bare_node (JString "b")] [] None None (Some edited_a).

(** The store of the provider's first render: no node, no edge, the dialog
    closed, the persona the default one of the data module (which is not
    among the sources). *)
Definition initial (defaultNodePersona : option NodePersona.t) : Store :=
  mkStore ∅ false false [] [] None defaultNodePersona None.

Definition store_empty : Store := initial None.

(** One node, of numeric identifier [1] and label "node 1", and no edge. *)
Definition node_1 : Node.t :=
  Node.mk (JNumber 1) (Some 1%positive) (Some "draggable") None ∅.

Definition store_one : Store :=
  store_of {[ 1%positive := {[ "label" := JString "node 1" ]} ]} [node_1] [].

(** One node, whose data object has no label. *)
Definition store_unlabelled : Store :=
  store_of {[ 1%positive := ∅ ]} [node_1] [].

(** One node, of string identifier "1", as [duplicateNode] makes them. *)
Definition node_s1 : Node.t :=
  Node.mk (JString "1") (Some 1%positive) (Some "draggable") None ∅.

Definition store_string_id : Store :=
  store_of {[ 1%positive := {[ "label" := JString "node 1" ]} ]} [node_s1] [].

(** One node, whose label and name differ. *)
Definition store_label_name : Store :=
  store_of {[ 1%positive := {[ "label" := JString "A"; "name" := JString "B" ]} ]}
           [node_1] [].

(** ** Every callback of the provider as an action *)

(** [showNodePersonaInfo] and [generateNodeGraph]: their bodies are
    commented out, nothing is left to run. *)
Definition showNodePersonaInfo (r : Store) : result Store := Return r.

Definition generateNodeGraph (r : Store) : result Store := Return r.

(** A call of one of the functions the context value hands out, with its
    arguments: the thirteen callbacks that [NodeGraphFlowProvider] defines
    and the raw setters [setNodes] and [setEdges], called with a collection.
    reactflow's [onNodesChange] and [onEdgesChange], which the context value
    hands out as well, are not among them: their code is reactflow's. *)
Inductive action : Type :=
  | ActOpenDialog
  | ActCloseDialog
  | ActSetNodePersonaFunc (topology : NetworkTopology.t)
  | ActShowGraphFunc
  | ActShowNodePersonaInfo
  | ActSetNodeEdges (edge : list Edge.t)
  | ActGenerateNodeGraph
  | ActAddNode (node : option Node.t)
  | ActEditNode (node : Node.t)
  | ActDuplicateNode (node : Node.t)
  | ActUpdateNodeInfo (nodeProperty : string) (value : jsval)
  | ActSaveEditedNode
  | ActDeleteNode (node : Node.t)
  | ActSetNodes (nodes : list Node.t)
  | ActSetEdges (edges : list Edge.t).

(** The actions that take a whole node or edge collection from their
    caller. *)
Definition takes_collection (a : action) : bool :=
  match a with
  | ActSetNodePersonaFunc _ | ActSetNodeEdges _
  | ActSetNodes _ | ActSetEdges _ => true
  | _ => false
  end.

Section Actions.

Variables CANVAS_WIDTH CANVAS_HEIGHT : Q.

Definition perform (a : action) (r : Store) : result Store :=
  match a with
  | ActOpenDialog => Return (openDialog r)
  | ActCloseDialog => Return (closeDialog r)
  | ActSetNodePersonaFunc topology => setNodePersonaFunc topology r
  | ActShowGraphFunc => showGraphFunc r
  | ActShowNodePersonaInfo => showNodePersonaInfo r
  | ActSetNodeEdges edge => Return (setNodeEdges edge r)
  | ActGenerateNodeGraph => generateNodeGraph r
  | ActAddNode node => addNode CANVAS_WIDTH CANVAS_HEIGHT node r
  | ActEditNode node => editNode node r
  | ActDuplicateNode node => duplicateNode CANVAS_WIDTH CANVAS_HEIGHT node r
  | ActUpdateNodeInfo nodeProperty value => updateNodeInfo nodeProperty value r
  | ActSaveEditedNode => saveEditedNode r
  | ActDeleteNode node => deleteNode node r
  | ActSetNodes nodes => Return (setNodes nodes r)
  | ActSetEdges edges => Return (setEdges edges r)
  end.

(** One render after the other, each action called on the store of the
    render before it. *)
Definition perform_all (actions : list action) (r : Store) : Store :=
  foldl (λ r a, next_render r (perform a r)) r actions.

End Actions.

(** The actions after which numeric identifiers are still increasing:
    those that append no node other than the default one and take no node
    collection from their caller. *)
Definition keeps_numbering (a : action) : bool :=
  match a with
  | ActAddNode (Some _) | ActDuplicateNode _
  | ActSetNodePersonaFunc _ | ActSetNodeEdges _
  | ActSetNodes _ | ActSetEdges _ => false
  | _ => true
  end.

(** The one action that takes a persona from its caller. *)
Definition loads_persona (a : action) : bool :=
  match a with
  | ActSetNodePersonaFunc _ => true
  | _ => false
  end.

(** The one action that writes into a data object that exists. *)
Definition writes_data (a : action) : bool :=
  match a with
  | ActUpdateNodeInfo _ _ => true
  | _ => false
  end.

(** ** Further predicates on stores *)

(** The identifiers of the node collection, in its order. *)
Definition node_ids (r : Store) : list jsval := Node.id <$> nodes r.

(** What an edge connects, whatever else it carries. *)
Definition edge_ends (e : Edge.t) : jsval * jsval * jsval :=
  (Edge.id e, Edge.source e, Edge.target e).

(** The default node can be synthesized. *)
Definition synthesizable (r : Store) : Prop :=
  nodes r ≠ [] ∧ Forall (label_usable (heap r)) (nodes r).

#[global] Instance synthesizable_dec r : Decision (synthesizable r).
Proof. unfold synthesizable. apply _. Defined.

(** The number in the label of the next default node. *)
Definition new_node_count (r : Store) : nat :=
  length (filter (λ n, label_has_marker (heap r) n) (nodes r)).

(** Numeric identifiers, each greater than those before it. *)
Definition id_lt (a b : jsval) : Prop :=
  match a, b with
  | JNumber x, JNumber y => (x < y)%Z
  | _, _ => False
  end.

#[global] Instance id_lt_dec a b : Decision (id_lt a b).
Proof. unfold id_lt. destruct a, b; apply _. Defined.

Definition is_number (v : jsval) : bool :=
  match v with
  | JNumber _ => true
  | _ => false
  end.

Definition increasing_ids (r : Store) : Prop :=
  Forall is_number (node_ids r) ∧ StronglySorted id_lt (node_ids r).

#[global] Instance increasing_ids_dec r : Decision (increasing_ids r).
Proof. unfold increasing_ids. apply _. Defined.

(** The numeric identifiers lie where a double holds every integer and its
    successor exactly: above [-2^53] and below the bound [b], itself at most
    [2^53]. *)
Definition safe_below (b : Z) (v : jsval) : Prop :=
  match v with
  | JNumber z => (- 2 ^ 53 < z < b)%Z
  | _ => True
  end.

#[global] Instance safe_below_dec b v : Decision (safe_below b v).
Proof. unfold safe_below. destruct v; apply _. Defined.

Definition ids_below (b : Z) (r : Store) : Prop :=
  Forall (safe_below b) (node_ids r).

#[global] Instance ids_below_dec b r : Decision (ids_below b r).
Proof. unfold ids_below. apply _. Defined.

(** No edge carries more than identifier, source and target. *)
Definition bare_edges (r : Store) : Prop :=
  Forall (λ e, Edge.rest e = ∅) (edges r).

#[global] Instance bare_edges_dec r : Decision (bare_edges r).
Proof. unfold bare_edges. apply _. Defined.

(** What [saveEditedNode] makes of an edge. *)
Definition strip_edge (e : Edge.t) : Edge.t :=
  Edge.mk (Edge.id e) (Edge.source e) (Edge.target e) ∅.

(** Nodes [1], [2], [5] with labelled data and an edge from [1] to [5]
    that carries a label; the dialog is open on a copy of node [2] that has
    got a type and shares the data object of node [2]. *)
Definition node_2 : Node.t := Node.mk (JNumber 2) (Some 2%positive) None None ∅.

Definition node_5 : Node.t := Node.mk (JNumber 5) (Some 3%positive) None None ∅.

Definition copy_of_2 : Node.t :=
  Node.mk (JNumber 2) (Some 2%positive) (Some "draggable") None ∅.

Definition store_125 : Store :=
  mkStore {[ 1%positive := {[ "label" := JString "one" ]};
             2%positive := {[ "label" := JString "two"; "name" := JString "zwei" ]};
             3%positive := {[ "label" := JString "new node 0" ]} ]}
          true false
          [Node.mk (JNumber 1) (Some 1%positive) None None ∅; node_2; node_5]
          [Edge.mk (JString "e1") (JNumber 1) (JNumber 5)
                   {[ "label" := JString "link" ]}]
          None None (Some copy_of_2).

(** An editing session: a node is opened, relabelled and saved, a default
    node added, a node deleted, another duplicated, the dialog closed. *)
Definition session : list action :=
  [ActEditNode node_5; ActUpdateNodeInfo "label" (JString "five");
   ActSaveEditedNode; ActAddNode None; ActDeleteNode node_2;
   ActDuplicateNode node_5; ActShowGraphFunc; ActCloseDialog].

(** A session on the nodes [a] and [b]: [a] is opened and saved, a node [d]
    added and saved, [b] deleted with the edge that ends there. *)
Definition session_ab : list action :=
  [ActEditNode (bare_node (JString "a")); ActSaveEditedNode;
   ActAddNode (Some (bare_node (JString "d"))); ActSaveEditedNode;
   ActDeleteNode (bare_node (JString "b")); ActCloseDialog].

(** The store [store_125] after a persona made of its nodes and edges was
    loaded under the type "star". *)
Definition store_loaded : Store :=
  next_render store_125
    (setNodePersonaFunc
       (NetworkTopology.mk "star"
          (NodePersona.mk (nodes store_125) (edges store_125) ∅))
       store_125).

(** A session without a write to a data object. *)
Definition quiet_session : list action :=
  [ActSaveEditedNode; ActAddNode None; ActDuplicateNode node_5;
   ActDeleteNode node_2; ActSetNodes [node_5]; ActSetEdges [];
   ActShowGraphFunc; ActCloseDialog].

(** A session that appends default nodes only. *)
Definition numbered_session : list action :=
  [ActAddNode None; ActDeleteNode node_2; ActEditNode node_5;
   ActSaveEditedNode; ActAddNode None].

(** ** Lemmas on the list operations *)

Section Lists.

Context {A : Type}.

Lemma findIndex_Some (f : A → bool) (l : list A) (i : nat) :
  findIndex f l = Some i →
  (∃ a, l !! i = Some a ∧ f a = true) ∧
  (∀ j b, j < i → l !! j = Some b → f b = false).
Proof.
  revert i. induction l as [|a l IH]; intros i; simpl; [done|].
  destruct (f a) eqn:Hfa.
  - intros [= <-]. split; [by exists a|]. intros j b Hj. lia.
  - destruct (findIndex f l) as [k|]; simpl; [|done].
    intros [= <-]. destruct (IH k eq_refl) as [Hk Hbefore].
    split; [done|]. intros [|j] b Hj; simpl.
    + by intros [= <-].
    + apply Hbefore. lia.
Qed.

Lemma findIndex_None (f : A → bool) (l : list A) :
  findIndex f l = None ↔ Forall (λ a, f a = false) l.
Proof.
  induction l as [|a l IH]; simpl; [by split; [constructor|]|].
  destruct (f a) eqn:Hfa.
  - split; [done|]. intros Hall. apply Forall_cons in Hall as [? _]. congruence.
  - destruct (findIndex f l); simpl.
    + split; [done|]. intros Hall. apply Forall_cons in Hall as [_ Hall].
      by apply IH in Hall.
    + split; [|done]. intros _. constructor; [done|]. by apply IH.
Qed.

Lemma findIndex_is_Some (f : A → bool) (l : list A) :
  Exists (λ a, f a = true) l → is_Some (findIndex f l).
Proof.
  intros Hex. destruct (findIndex f l) eqn:Hfind; [by eexists|].
  apply findIndex_None in Hfind. apply Exists_exists in Hex as (a & Ha & Hfa).
  rewrite Forall_forall in Hfind. specialize (Hfind a Ha). congruence.
Qed.

(** A sublist all of whose elements pass a filter is a sublist of the
    filtered list: filtering keeps the longest such sublist. *)
Lemma sublist_filter_greatest (P : A → Prop) `{!∀ a, Decision (P a)}
    (k l : list A) :
  k `sublist_of` l → Forall P k → k `sublist_of` filter P l.
Proof.
  induction 1 as [|a k l Hkl IH|a k l Hkl IH]; intros Hall.
  - constructor.
  - apply Forall_cons in Hall as [Ha Hall].
    rewrite filter_cons_True by done. constructor. by apply IH.
  - rewrite filter_cons. case_decide; [constructor|]; by apply IH.
Qed.

Lemma Forall_filter_self (P : A → Prop) `{!∀ a, Decision (P a)} (l : list A) :
  Forall P (filter P l).
Proof. apply Forall_forall. intros a Ha. by apply list_elem_of_filter in Ha as [? _]. Qed.

(** [array_filter] with a callback that throws on no element is [filter]. *)
Lemma array_filter_total (f : A → result bool) (g : A → bool) (l : list A) :
  Forall (λ a, f a = Return (g a)) l →
  array_filter f l = Return (filter (λ a, g a) l).
Proof.
  induction 1 as [|a l Ha _ IH]; simpl; [done|].
  rewrite Ha, IH. simpl. rewrite filter_cons.
  by destruct (g a).
Qed.

(** The traversal ends with the exception of an element the callback throws
    on, when the callback throws no other. *)
Lemma array_filter_Throw (f : A → result bool) (e : js_error) (l : list A) :
  (∀ a e', f a = Throw e' → e' = e) →
  Exists (λ a, f a = Throw e) l →
  array_filter f l = Throw e.
Proof.
  intros Honly. induction 1 as [a l Ha|a l _ IH]; simpl.
  - by rewrite Ha.
  - destruct (f a) as [b|e'] eqn:Hfa; simpl.
    + by rewrite IH.
    + by rewrite (Honly a e' Hfa).
Qed.

End Lists.

(** [includes] finds exactly the occurrences of its argument. *)
Example includes_marker : includes "my new node 3" "new node" = true.
Proof. reflexivity. Qed.

Example pretty_count : "new node " +:+ pretty 12%nat = "new node 12".
Proof. reflexivity. Qed.

Lemma append_String (c : Ascii.ascii) (a b : string) :
  String c a +:+ b = String c (a +:+ b).
Proof. reflexivity. Qed.

Lemma append_empty (b : string) : "" +:+ b = b.
Proof. reflexivity. Qed.

Lemma prefix_app (t s : string) :
  String.prefix t s = true ↔ ∃ b, s = t +:+ b.
Proof.
  revert s. induction t as [|c t IH]; intros s; simpl.
  - destruct s; (split; [intros _; by eexists|done]).
  - destruct s as [|d s]; simpl.
    + split; [done|]. by intros [b ?].
    + destruct (Ascii.ascii_dec c d) as [->|Hne].
      * rewrite IH. split; intros [b Hb]; exists b;
          rewrite append_String in *; congruence.
      * split; [done|]. intros [b Hb]. rewrite append_String in Hb. congruence.
Qed.

Lemma includes_occurs (s t : string) :
  includes s t = true ↔ ∃ a b, s = a +:+ t +:+ b.
Proof.
  induction s as [|c s IH]; cbn [includes].
  - rewrite orb_false_r, prefix_app. split.
    + intros [b Hb]. by exists "", b.
    + intros ([|? a] & b & Heq); [by exists b|by rewrite append_String in Heq].
  - rewrite orb_true_iff, prefix_app, IH. split.
    + intros [[b ->]|(a & b & ->)]; [by exists "", b|by exists (String c a), b].
    + intros ([|d a] & b & Heq).
      * left. by exists b.
      * right. rewrite append_String in Heq. injection Heq as -> ->. by exists a, b.
Qed.

(** ** [deleteNode] *)

Lemma deleteNode_unfold (node : Node.t) (r : Store) :
  deleteNode node r =
  Return (setNodes (filter (λ n, Node.id n ≠ Node.id node) (nodes r))
         (setEdges (filter (λ e, ¬ (Edge.source e = Node.id node
                                    ∨ Edge.target e = Node.id node)) (edges r))
          r)).
Proof. reflexivity. Qed.

(** C3.  [deleteNode(n)] returns, for every store; the nodes it leaves are
    the nodes of the prior collection whose identifier differs from that of
    [n], in a sublist of the prior collection; the edges it leaves are the
    prior edges whose source and target both differ from the identifier of
    [n], so none touches [n] and every edge touching neither end is kept.
    From nodes [a], [b] and the edge [e1] from [a] to [b], deleting [a]
    leaves the node [b] and no edge. *)
Theorem deleteNode_cascades :
  (∀ (node : Node.t) (r : Store), ∃ s,
      deleteNode node r = Return s ∧
      nodes s `sublist_of` nodes r ∧
      (∀ n, n ∈ nodes s ↔ n ∈ nodes r ∧ Node.id n ≠ Node.id node) ∧
      edges s `sublist_of` edges r ∧
      (∀ e, e ∈ edges s ↔
            e ∈ edges r ∧ Edge.source e ≠ Node.id node
                        ∧ Edge.target e ≠ Node.id node)) ∧
  deleteNode (bare_node (JString "a")) store_ab =
    Return (store_of ∅ [bare_node (JString "b")] []).
Proof.
  split; [|reflexivity].
  intros node r. eexists. split; [apply deleteNode_unfold|]. simpl.
  split; [apply sublist_filter|].
  split; [intros n; rewrite list_elem_of_filter; tauto|].
  split; [apply sublist_filter|].
  intros e. rewrite list_elem_of_filter. tauto.
Qed.

(** C10.  [deleteNode(n)] leaves no node with the identifier of [n], however
    many the collection held, and keeps the others in their order: what it
    leaves is the greatest sublist of the prior collection without such a
    node.  The same holds of the edges and the edges touching [n].  With two
    nodes of identifier [a] both go. *)
Theorem deleteNode_removes_all_keeps_order :
  (∀ (node : Node.t) (r : Store), ∃ s,
      deleteNode node r = Return s ∧
      nodes s `sublist_of` nodes r ∧
      Forall (λ n, Node.id n ≠ Node.id node) (nodes s) ∧
      (∀ k, k `sublist_of` nodes r →
            Forall (λ n, Node.id n ≠ Node.id node) k →
            k `sublist_of` nodes s) ∧
      edges s `sublist_of` edges r ∧
      Forall (λ e, Edge.source e ≠ Node.id node ∧ Edge.target e ≠ Node.id node)
             (edges s) ∧
      (∀ k, k `sublist_of` edges r →
            Forall (λ e, Edge.source e ≠ Node.id node
                         ∧ Edge.target e ≠ Node.id node) k →
            k `sublist_of` edges s)) ∧
  deleteNode (bare_node (JString "a")) store_aba =
    Return (store_of ∅
              [bare_node (JString "b"); bare_node (JString "c")]
              [bare_edge (JString "e2") (JString "c") (JString "b");
               bare_edge (JString "e4") (JString "b") (JString "c")]).
Proof.
  split; [|reflexivity].
  intros node r. eexists. split; [apply deleteNode_unfold|]. simpl.
  split; [apply sublist_filter|].
  split; [apply Forall_filter_self|].
  split; [intros k; apply sublist_filter_greatest|].
  split; [apply sublist_filter|].
  split.
  - eapply Forall_impl; [apply Forall_filter_self|]. simpl. tauto.
  - intros k Hk Hall. apply sublist_filter_greatest; [done|].
    eapply Forall_impl; [exact Hall|]. simpl. tauto.
Qed.

(** ** [addNode] *)

Section CanvasFacts.

Variables CANVAS_WIDTH CANVAS_HEIGHT : Q.

Local Abbreviation W := CANVAS_WIDTH.
Local Abbreviation H := CANVAS_HEIGHT.

(** Whatever [addNode] returns appends one node and leaves the edges. *)
Lemma addNode_Return (node : option Node.t) (r s : Store) :
  addNode W H node r = Return s →
  ∃ newNode h,
    match node with
    | Some n => newNode = n ∧ h = heap r
    | None => createNewNode W H r = Return (newNode, h)
    end ∧
    s = mkStore h true (showGraph r) (nodes r ++ [newNode]) (edges r)
                (nodePersonaType r) (nodePersona r) (Some newNode).
Proof.
  unfold addNode. destruct node as [n|].
  - intros [= <-]. by exists n, (heap r).
  - destruct (createNewNode W H r) as [[newNode h]|e] eqn:Hcreate; simpl; [|done].
    intros [= <-]. by exists newNode, h.
Qed.

Lemma referential_integrity_addNode (node : option Node.t) (r s : Store) :
  referential_integrity r → addNode W H node r = Return s → referential_integrity s.
Proof.
  intros Hr Hadd. apply addNode_Return in Hadd as (newNode & h & _ & ->).
  unfold referential_integrity, has_node in *. simpl.
  eapply Forall_impl; [exact Hr|]. simpl. intros e [Hs Ht].
  split; apply Exists_app; by left.
Qed.

Lemma referential_integrity_deleteNode (node : Node.t) (r s : Store) :
  referential_integrity r → deleteNode node r = Return s → referential_integrity s.
Proof.
  rewrite deleteNode_unfold. intros Hr [= <-].
  unfold referential_integrity, has_node in *. simpl.
  apply Forall_forall. intros e He.
  apply list_elem_of_filter in He as [Hfree He].
  rewrite Forall_forall in Hr. destruct (Hr e He) as [Hs Ht].
  split.
  - apply Exists_exists in Hs as (n & Hn & Hid). apply Exists_exists.
    exists n. split; [|done]. apply list_elem_of_filter. split; [|done].
    intros Heq. apply Hfree. left. congruence.
  - apply Exists_exists in Ht as (n & Hn & Hid). apply Exists_exists.
    exists n. split; [|done]. apply list_elem_of_filter. split; [|done].
    intros Heq. apply Hfree. right. congruence.
Qed.

Lemma referential_integrity_dispatch (c : call) (r : Store) :
  referential_integrity r → referential_integrity (next_render r (dispatch W H c r)).
Proof.
  intros Hr. destruct (dispatch W H c r) as [s|e] eqn:Hcall; simpl; [|done].
  destruct c as [node|node]; simpl in Hcall.
  - by eapply referential_integrity_addNode.
  - by eapply referential_integrity_deleteNode.
Qed.

(** C1.  From a store in which every edge runs between two nodes of the node
    collection, every sequence of [addNode] and [deleteNode] calls, with any
    arguments, leads to a store in which every edge again runs between two
    nodes of the node collection. *)
Theorem referential_integrity_preserved (calls : list call) (r : Store) :
  referential_integrity r → referential_integrity (run W H calls r).
Proof.
  revert r. induction calls as [|c calls IH]; intros r Hr; [done|].
  apply IH. by apply referential_integrity_dispatch.
Qed.

End CanvasFacts.

Lemma referential_integrity_preserved_witness :
  referential_integrity store_ab ∧
  referential_integrity
    (run 800 600
         [AddNode None; DeleteNode (bare_node (JString "a"));
          AddNode (Some (bare_node (JString "d")))]
         store_ab).
Proof.
  assert (Hab : referential_integrity store_ab)
    by (apply (bool_decide_unpack _); vm_compute; exact I).
  split; [exact Hab|].
  apply (referential_integrity_preserved 800 600), Hab.
Defined.

(** ** [saveEditedNode] and [updateNodeInfo] *)

(** C2.  With an edit buffer in flight whose identifier some node of the
    collection has, [saveEditedNode] puts the buffer in the place of the
    first node with that identifier, reduces every edge to its identifier,
    source and target, closes the dialog and clears the buffer. *)
Theorem saveEditedNode_commits (r : Store) (info : Node.t) :
  nodeInfo r = Some info →
  has_node r (Node.id info) →
  ∃ (i : nat) (n : Node.t) (s : Store),
    nodes r !! i = Some n ∧ Node.id n = Node.id info ∧
    (∀ j m, j < i → nodes r !! j = Some m → Node.id m ≠ Node.id info) ∧
    saveEditedNode r = Return s ∧
    nodes s = <[i := info]> (nodes r) ∧ nodes s !! i = Some info ∧
    Forall2 stripped (edges r) (edges s) ∧
    isDialogOpen s = false ∧ nodeInfo s = None.
Proof.
  intros Hinfo Hnode. unfold saveEditedNode. rewrite Hinfo.
  set (f := λ node : Node.t, bool_decide (Node.id node = Node.id info)).
  destruct (findIndex_is_Some f (nodes r)) as [i Hi].
  { eapply Exists_impl; [exact Hnode|]. intros n Hn. by apply bool_decide_eq_true. }
  rewrite Hi. apply findIndex_Some in Hi as [(n & Hn & Hfn) Hfirst].
  exists i, n. eexists. split; [done|].
  split; [by apply bool_decide_eq_true in Hfn|].
  split.
  { intros j m Hj Hm Heq. specialize (Hfirst j m Hj Hm).
    unfold f in Hfirst. by rewrite bool_decide_eq_false in Hfirst. }
  split; [reflexivity|]. simpl.
  split; [done|].
  split; [apply list_lookup_insert_eq; by eapply lookup_lt_Some|].
  split; [|done].
  apply Forall2_fmap_r, Forall_Forall2_diag, Forall_forall.
  by intros e _.
Qed.

Lemma saveEditedNode_commits_witness :
  ∃ (i : nat) (n : Node.t) (s : Store),
    nodes store_editing_a !! i = Some n ∧ Node.id n = Node.id edited_a ∧
    (∀ j m, j < i → nodes store_editing_a !! j = Some m →
            Node.id m ≠ Node.id edited_a) ∧
    saveEditedNode store_editing_a = Return s ∧
    nodes s = <[i := edited_a]> (nodes store_editing_a) ∧
    nodes s !! i = Some edited_a ∧
    Forall2 stripped (edges store_editing_a) (edges s) ∧
    isDialogOpen s = false ∧ nodeInfo s = None.
Proof.
  apply (saveEditedNode_commits store_editing_a edited_a).
  - reflexivity.
  - apply (bool_decide_unpack _). vm_compute. exact I.
Defined.

Example saveEditedNode_editing_a :
  saveEditedNode store_editing_a =
  Return (store_of ∅
            [bare_node (JString "b"); edited_a; bare_node (JString "a")]
            [bare_edge (JString "e1") (JString "a") (JString "b")]).
Proof. reflexivity. Qed.

(** C5.  Without an edit buffer in flight, [saveEditedNode] and
    [updateNodeInfo] return and hand back the store as it is: heap, nodes,
    edges, buffer, both flags and persona.  So does [saveEditedNode] when
    the buffer's identifier is that of no node of the collection. *)
Theorem silent_no_op (r : Store) :
  (nodeInfo r = None →
   saveEditedNode r = Return r ∧
   ∀ nodeProperty value, updateNodeInfo nodeProperty value r = Return r) ∧
  (∀ info, nodeInfo r = Some info → ¬ has_node r (Node.id info) →
           saveEditedNode r = Return r).
Proof.
  split.
  - intros Hnone. unfold saveEditedNode, updateNodeInfo. by rewrite Hnone.
  - intros info Hinfo Hstranger. unfold saveEditedNode. rewrite Hinfo.
    destruct (findIndex _ (nodes r)) as [i|] eqn:Hfind; [|done].
    apply findIndex_Some in Hfind as [(n & Hn & Hfn) _].
    destruct Hstranger. apply Exists_exists. exists n.
    split; [by eapply list_elem_of_lookup_2|]. by apply bool_decide_eq_true in Hfn.
Qed.

Lemma silent_no_op_witness :
  (saveEditedNode store_ab = Return store_ab ∧
   ∀ nodeProperty value, updateNodeInfo nodeProperty value store_ab = Return store_ab) ∧
  saveEditedNode store_editing_stranger = Return store_editing_stranger.
Proof.
  split.
  - apply (silent_no_op store_ab). reflexivity.
  - apply (silent_no_op store_editing_stranger) with edited_a.
    + reflexivity.
    + apply (bool_decide_unpack _). vm_compute. exact I.
Defined.

(** ** [setNodePersonaFunc] *)

(** C7.  Whatever the store holds, [setNodePersonaFunc] with the topology
    [{type, nodePersona}] returns; afterwards the node collection is the
    persona's node list and the edge collection holds the persona's edges in
    their order, and the persona and its type are recorded.  So for the
    type "star". *)
Theorem setNodePersonaFunc_replaces :
  (∀ (topology : NetworkTopology.t) (r : Store), ∃ s,
      setNodePersonaFunc topology r = Return s ∧
      nodes s = NodePersona.nodes (NetworkTopology.nodePersona topology) ∧
      edges s = NodePersona.edges (NetworkTopology.nodePersona topology) ∧
      nodePersonaType s = Some (NetworkTopology.type topology) ∧
      nodePersona s = Some (NetworkTopology.nodePersona topology)) ∧
  (∀ (N : list Node.t) (E : list Edge.t) (others : gmap string jsval)
     (r : Store), ∃ s,
      setNodePersonaFunc
        (NetworkTopology.mk "star" (NodePersona.mk N E others)) r = Return s ∧
      nodes s = N ∧ edges s = E ∧ nodePersonaType s = Some "star").
Proof.
  split.
  - intros topology r. eexists. split; [reflexivity|]. done.
  - intros N E others r. eexists. split; [reflexivity|]. done.
Qed.

(** ** [useNodeFlowContext] outside a provider *)

(** C8, as the code has it.  Outside a provider the context holds its default
    value [null]; the guard tests for [undefined], so [useNodeFlowContext]
    throws nothing and returns [null]. *)
Theorem useNodeFlowContext_outside_provider :
  useContext nodeFlowContext None = ContextNull ∧
  useNodeFlowContext None = Return ContextNull.
Proof. split; reflexivity. Qed.

(** ** [createNewNode], [addNode] and [duplicateNode] *)

Lemma mentions_new_node_usable (h : heap_t) (n : Node.t) :
  label_usable h n → mentions_new_node h n = Return (label_has_marker h n).
Proof.
  unfold label_usable, mentions_new_node, label_has_marker, label_of.
  destruct (Node.data n) as [l|]; [|done]. by destruct (get h l "label").
Qed.

Lemma mentions_new_node_unusable (h : heap_t) (n : Node.t) :
  ¬ label_usable h n → mentions_new_node h n = Throw TypeError.
Proof.
  unfold label_usable, mentions_new_node.
  destruct (Node.data n) as [l|]; [|done].
  destruct (get h l "label"); simpl; tauto.
Qed.

Lemma mentions_new_node_TypeError (h : heap_t) (n : Node.t) (e : js_error) :
  mentions_new_node h n = Throw e → e = TypeError.
Proof.
  unfold mentions_new_node. destruct (Node.data n) as [l|]; [|done].
  destruct (get h l "label"); congruence.
Qed.

Lemma alloc_fresh (h : heap_t) (o : data_object) :
  h !! (alloc h o).1 = None ∧
  (alloc h o).2 !! (alloc h o).1 = Some o ∧
  ∀ l, l ≠ (alloc h o).1 → (alloc h o).2 !! l = h !! l.
Proof.
  unfold alloc. simpl. split; [|split].
  - apply not_elem_of_dom, is_fresh.
  - apply lookup_insert_eq.
  - intros l Hl. by apply lookup_insert_ne.
Qed.

Section Synthesis.

Variables CANVAS_WIDTH CANVAS_HEIGHT : Q.

Local Abbreviation W := CANVAS_WIDTH.
Local Abbreviation H := CANVAS_HEIGHT.

(** The default node, where it can be synthesized: at the canvas center,
    labelled and named "new node " and the count of the nodes whose label
    holds "new node", its identifier [next_id] of that of the last node, its
    data a new object. *)
Lemma createNewNode_Return (r : Store) (lastNode : Node.t) :
  last (nodes r) = Some lastNode →
  Forall (label_usable (heap r)) (nodes r) →
  let count := length (filter (λ n, label_has_marker (heap r) n) (nodes r)) in
  let l := fresh (dom (heap r)) in
  createNewNode W H r =
  Return (Node.mk (next_id (Node.id lastNode)) (Some l) (Some "draggable")
                  (Some (XYPosition.mk (W / 2) (H / 2))) ∅,
          <[l := {[ "label" := JString ("new node " +:+ pretty count);
                    "name" := JString ("new node " +:+ pretty count) ]}]>
            (heap r)).
Proof.
  intros Hlast Husable. unfold createNewNode.
  rewrite (array_filter_total _ (label_has_marker (heap r))).
  - simpl. by rewrite Hlast.
  - eapply Forall_impl; [exact Husable|]. apply mentions_new_node_usable.
Qed.

(** It cannot be synthesized from an empty collection, nor from one with a
    node whose data has no string for a label. *)
Lemma createNewNode_Throw (r : Store) :
  nodes r = [] ∨ ¬ Forall (label_usable (heap r)) (nodes r) →
  createNewNode W H r = Throw TypeError.
Proof.
  unfold createNewNode.
  destruct (decide (Forall (label_usable (heap r)) (nodes r))) as [Hall|Hnot].
  - intros [Hnil|?]; [|done]. by rewrite Hnil.
  - intros _. rewrite (array_filter_Throw _ TypeError); [done| |].
    + apply mentions_new_node_TypeError.
    + apply not_Forall_Exists in Hnot; [|apply _].
      eapply Exists_impl; [exact Hnot|]. apply mentions_new_node_unusable.
Qed.

(** Where [addNode] does return.  Given a node, or given none in a store whose node
    collection is not empty and holds only nodes without data or with a
    string for a label, [addNode] returns; it appends the given node, else
    the node [createNewNode] makes, to the end of the node collection, which
    grows by one (from one node to two), opens the dialog and makes the
    appended node the edit buffer. *)
Theorem addNode_appends (node : option Node.t) (r : Store) :
  (node = None → nodes r ≠ [] ∧ Forall (label_usable (heap r)) (nodes r)) →
  ∃ (newNode : Node.t) (h : heap_t) (s : Store),
    match node with
    | Some given => newNode = given ∧ h = heap r
    | None => createNewNode W H r = Return (newNode, h)
    end ∧
    addNode W H node r = Return s ∧
    nodes s = nodes r ++ [newNode] ∧
    length (nodes s) = S (length (nodes r)) ∧
    isDialogOpen s = true ∧
    nodeInfo s = Some newNode ∧
    heap s = h.
Proof.
  intros Hpre. unfold addNode. destruct node as [given|].
  - exists given, (heap r). eexists. split; [done|]. split; [reflexivity|].
    simpl. rewrite length_app. simpl. repeat split. lia.
  - destruct (Hpre eq_refl) as [Hne Husable].
    destruct (last (nodes r)) as [lastNode|] eqn:Hlast.
    + pose proof (createNewNode_Return r lastNode Hlast Husable) as Hcreate.
      simpl in Hcreate. rewrite Hcreate. do 3 eexists.
      split; [reflexivity|]. split; [reflexivity|].
      simpl. rewrite length_app. simpl. repeat split. lia.
    + apply last_None in Hlast. done.
Qed.

(** C9, amended.  [duplicateNode(node)] returns for every store and node.
    The clone has the type, position and other properties of [node]; its
    identifier is the node count in decimal; its data is a new object whose
    label and name are both the label of [node] followed by " duplicate".
    The call is [addNode] of the clone: the clone is appended, the dialog
    opens and the edit buffer holds the clone. *)
Theorem duplicateNode_clones (node : Node.t) (r : Store) :
  ∃ (clone : Node.t) (l : loc) (s : Store),
    duplicateNode W H node r = Return s ∧
    duplicateNode W H node r = addNode W H (Some clone) (setHeap (heap s) r) ∧
    Node.id clone = JString (pretty (length (nodes r))) ∧
    Node.type clone = Node.type node ∧
    Node.position clone = Node.position node ∧
    Node.rest clone = Node.rest node ∧
    Node.data clone = Some l ∧
    heap r !! l = None ∧
    (∀ l', l' ≠ l → heap s !! l' = heap r !! l') ∧
    heap s !! l =
      Some {[ "label" := JString (to_string (label_of (heap r) node) +:+ " duplicate");
              "name" := JString (to_string (label_of (heap r) node) +:+ " duplicate") ]} ∧
    nodes s = nodes r ++ [clone] ∧
    isDialogOpen s = true ∧
    nodeInfo s = Some clone.
Proof.
  unfold duplicateNode.
  set (o := ({[ "label" := _; "name" := _ ]} : data_object)).
  destruct (alloc_fresh (heap r) o) as (Hfresh & Hnew & Hothers).
  destruct (alloc (heap r) o) as [l h] eqn:Halloc. simpl in *.
  do 3 eexists. split; [reflexivity|]. simpl. repeat split; done.
Qed.

End Synthesis.

(** C6, as the code has it.  In the store the provider starts with, and in
    a store whose only node has a data object without a label, [addNode()]
    throws a [TypeError]: nothing is appended and the dialog stays closed.
    The [?? 0] and the [data?.] of [createNewNode] provide for a missing
    identifier and a missing data object, not for these two. *)
Lemma addNode_default_throws :
  addNode 800 600 None store_empty = Throw TypeError ∧
  next_render store_empty (addNode 800 600 None store_empty) = store_empty ∧
  addNode 800 600 None store_unlabelled = Throw TypeError.
Proof. repeat split; reflexivity. Qed.

Lemma addNode_appends_witness :
  ∃ (newNode : Node.t) (h : heap_t) (s : Store),
    createNewNode 800 600 store_one = Return (newNode, h) ∧
    addNode 800 600 None store_one = Return s ∧
    nodes s = nodes store_one ++ [newNode] ∧
    length (nodes s) = 2 ∧
    isDialogOpen s = true ∧
    nodeInfo s = Some newNode ∧
    heap s = h.
Proof.
  apply (addNode_appends 800 600 None store_one).
  intros _. split; [discriminate|].
  apply (bool_decide_unpack _). vm_compute. exact I.
Defined.

(** C9, as stated, fails.  Duplicating a node labelled "A" and named "B"
    gives a clone labelled "A duplicate" whose name is "A duplicate" too,
    not "B duplicate": the name of the original is not read. *)
Lemma duplicateNode_name_follows_label :
  get (heap store_label_name) 1%positive "label" = JString "A" ∧
  get (heap store_label_name) 1%positive "name" = JString "B" ∧
  ∃ (clone : Node.t) (l : loc) (s : Store),
    duplicateNode 800 600 node_1 store_label_name = Return s ∧
    nodeInfo s = Some clone ∧ Node.data clone = Some l ∧
    get (heap s) l "label" = JString "A duplicate" ∧
    get (heap s) l "name" = JString "A duplicate" ∧
    get (heap s) l "name" ≠ JString "B duplicate".
Proof.
  split; [reflexivity|]. split; [reflexivity|].
  do 3 eexists. split; [reflexivity|]. simpl.
  split; [reflexivity|]. split; [reflexivity|].
  split; [reflexivity|]. split; [reflexivity|].
  vm_compute. discriminate.
Qed.

(** C4, as the code has it.  [+] concatenates onto an identifier that is a
    string: after a last node of identifier "1" the default node gets the
    identifier "11", not the next number.  Its position is the canvas
    center, its label and name "new node 0".  A numeric identifier is
    incremented. *)
Theorem createNewNode_string_identifier :
  (∀ s, next_id (JString s) = JString (s +:+ "1")) ∧
  (∀ n, next_id (JNumber n) = JNumber (n + 1)) ∧
  ∃ h,
    createNewNode 800 600 store_string_id =
      Return (Node.mk (JString "11") (Some 2%positive) (Some "draggable")
                      (Some (XYPosition.mk (800 / 2) (600 / 2))) ∅, h) ∧
    get h 2%positive "label" = JString "new node 0" ∧
    get h 2%positive "name" = JString "new node 0".
Proof.
  split; [done|]. split; [done|].
  eexists. split; [reflexivity|]. split; reflexivity.
Qed.

(** [duplicateNode] makes such identifiers: after it, the default node of a
    collection that began with the identifier [1] has the identifier "11". *)
Example createNewNode_after_duplicateNode :
  ∃ (s : Store) (newNode : Node.t) (h : heap_t),
    duplicateNode 800 600 node_1 store_one = Return s ∧
    Node.id <$> nodes s = [JNumber 1; JString "1"] ∧
    createNewNode 800 600 s = Return (newNode, h) ∧
    Node.id newNode = JString "11".
Proof.
  do 3 eexists. split; [reflexivity|]. split; [reflexivity|].
  split; reflexivity.
Qed.

(** The first render of the provider is such a store, whatever the default
    persona. *)
Example addNode_initial (W H : Q) (defaultNodePersona : option NodePersona.t) :
  addNode W H None (initial defaultNodePersona) = Throw TypeError.
Proof. reflexivity. Qed.

(** ** The data object shared by the edit buffer and the collection *)

(** After [editNode] of a node of the collection, [updateNodeInfo] changes
    the label that the collection's node shows, before anything is saved. *)
Example updateNodeInfo_writes_shared_data :
  ∃ (s1 s2 : Store),
    editNode node_1 store_one = Return s1 ∧
    updateNodeInfo "label" (JString "renamed") s1 = Return s2 ∧
    nodes s2 = nodes store_one ∧
    label_of (heap store_one) node_1 = JString "node 1" ∧
    label_of (heap s2) node_1 = JString "renamed".
Proof. do 2 eexists. repeat split; reflexivity. Qed.

(** * Further properties of the callbacks *)

(** ** Auxiliary facts *)

Lemma Store_eq (s1 s2 : Store) :
  heap s1 = heap s2 → isDialogOpen s1 = isDialogOpen s2 →
  showGraph s1 = showGraph s2 → nodes s1 = nodes s2 → edges s1 = edges s2 →
  nodePersonaType s1 = nodePersonaType s2 → nodePersona s1 = nodePersona s2 →
  nodeInfo s1 = nodeInfo s2 → s1 = s2.
Proof. destruct s1, s2; simpl; congruence. Qed.

Section Filters.

Context {A : Type} (P Q : A → Prop) `{!∀ a, Decision (P a), !∀ a, Decision (Q a)}.

Lemma filter_twice (l : list A) : filter P (filter P l) = filter P l.
Proof.
  induction l as [|a l IH]; [done|]. rewrite filter_cons.
  case_decide; [|done]. rewrite filter_cons_True by done. by rewrite IH.
Qed.

Lemma filter_swap (l : list A) : filter P (filter Q l) = filter Q (filter P l).
Proof.
  induction l as [|a l IH]; [done|]. rewrite !filter_cons.
  destruct (decide (Q a)), (decide (P a));
    rewrite ?filter_cons_True, ?filter_cons_False by done; by rewrite IH.
Qed.

Lemma filter_all_iff (l : list A) : filter P l = l ↔ Forall P l.
Proof.
  split.
  - intros <-. apply Forall_filter_self.
  - induction 1 as [|a l Ha _ IH]; [done|].
    rewrite filter_cons_True by done. by rewrite IH.
Qed.

End Filters.

Lemma has_node_ids (r : Store) (i : jsval) : has_node r i ↔ i ∈ node_ids r.
Proof.
  unfold has_node, node_ids. rewrite Exists_exists, list_elem_of_fmap.
  split; intros (n & ? & ?); exists n; done.
Qed.

Lemma saveEditedNode_no_match (r : Store) (info : Node.t) :
  nodeInfo r = Some info → ¬ has_node r (Node.id info) →
  saveEditedNode r = Return r.
Proof.
  intros Hinfo Hnone. unfold saveEditedNode. rewrite Hinfo.
  destruct (findIndex _ (nodes r)) as [i|] eqn:Hfind; [|done].
  apply findIndex_Some in Hfind as [(n & Hn & Hfn) _].
  destruct Hnone. apply Exists_exists. exists n.
  split; [by eapply list_elem_of_lookup_2|]. by apply bool_decide_eq_true in Hfn.
Qed.

(** ** [deleteNode], again *)

(** X1.  Deleting the same node a second time changes nothing more. *)
Theorem deleteNode_idempotent (node : Node.t) (r : Store) :
  deleteNode node r ≫= deleteNode node = deleteNode node r.
Proof.
  rewrite deleteNode_unfold. simpl. rewrite deleteNode_unfold. simpl.
  by rewrite !filter_twice.
Qed.

(** X2.  Two nodes can be deleted in either order. *)
Theorem deleteNode_commutes (a b : Node.t) (r : Store) :
  deleteNode a r ≫= deleteNode b = deleteNode b r ≫= deleteNode a.
Proof.
  rewrite !deleteNode_unfold. simpl. rewrite !deleteNode_unfold. simpl.
  f_equal. apply Store_eq; simpl; try done; apply filter_swap.
Qed.

(** X3.  [deleteNode(n)] hands the store back as it is exactly when no node
    has the identifier of [n] and no edge starts or ends there. *)
Theorem deleteNode_unchanged_iff (node : Node.t) (r : Store) :
  deleteNode node r = Return r ↔
  ¬ has_node r (Node.id node) ∧
  Forall (λ e, Edge.source e ≠ Node.id node ∧ Edge.target e ≠ Node.id node)
         (edges r).
Proof.
  rewrite deleteNode_unfold. split.
  - intros [= Heq]. apply (f_equal (λ s, (nodes s, edges s))) in Heq.
    simpl in Heq. injection Heq as Hn He.
    apply filter_all_iff in Hn, He. split.
    + intros Hex. apply Exists_exists in Hex as (n & Hin & Hid).
      rewrite Forall_forall in Hn. by apply (Hn n Hin).
    + eapply Forall_impl; [exact He|]. simpl. tauto.
  - intros [Hnone Hedges]. f_equal. destruct r. unfold setNodes, setEdges. simpl in *.
    f_equal.
    + apply filter_all_iff, Forall_forall. intros n Hin Hid.
      apply Hnone, Exists_exists. by exists n.
    + apply filter_all_iff. eapply Forall_impl; [exact Hedges|]. simpl. tauto.
Qed.

(** X4.  A node deleted while it is being edited strands the edit: the
    buffer and the dialog flag stay as they are, and [saveEditedNode] then
    finds no node to replace and hands the store back unchanged. *)
Theorem deleteNode_strands_edit (node info : Node.t) (r : Store) :
  nodeInfo r = Some info →
  Node.id node = Node.id info →
  ∃ s, deleteNode node r = Return s ∧
       nodeInfo s = Some info ∧
       isDialogOpen s = isDialogOpen r ∧
       saveEditedNode s = Return s.
Proof.
  intros Hinfo Hid. eexists. split; [apply deleteNode_unfold|]. simpl.
  split; [done|]. split; [done|].
  apply saveEditedNode_no_match with info; [done|].
  simpl. intros Hex. apply Exists_exists in Hex as (n & Hin & Hn).
  apply list_elem_of_filter in Hin as [Hne _]. congruence.
Qed.

Lemma deleteNode_strands_edit_witness :
  ∃ s, deleteNode node_2 store_125 = Return s ∧
       nodeInfo s = Some copy_of_2 ∧
       isDialogOpen s = isDialogOpen store_125 ∧
       saveEditedNode s = Return s.
Proof. apply (deleteNode_strands_edit node_2 copy_of_2 store_125); reflexivity. Defined.

(** ** [saveEditedNode], again *)

(** Either nothing is saved, or the buffer replaces the first node that has
    its identifier. *)
Lemma saveEditedNode_cases (r : Store) :
  (saveEditedNode r = Return r ∧
   (nodeInfo r = None ∨
    ∃ info, nodeInfo r = Some info ∧ ¬ has_node r (Node.id info))) ∨
  (∃ info i n,
     nodeInfo r = Some info ∧ nodes r !! i = Some n ∧
     Node.id n = Node.id info ∧
     (∀ j m, j < i → nodes r !! j = Some m → Node.id m ≠ Node.id info) ∧
     saveEditedNode r =
       Return (mkStore (heap r) false (showGraph r) (<[i := info]> (nodes r))
                       (strip_edge <$> edges r)
                       (nodePersonaType r) (nodePersona r) None)).
Proof.
  unfold saveEditedNode. destruct (nodeInfo r) as [info|] eqn:Hinfo.
  - destruct (findIndex _ (nodes r)) as [i|] eqn:Hfind.
    + right. apply findIndex_Some in Hfind as [(n & Hn & Hfn) Hfirst].
      exists info, i, n. split; [done|]. split; [done|].
      split; [by apply bool_decide_eq_true in Hfn|]. split; [|done].
      intros j m Hj Hm. specialize (Hfirst j m Hj Hm).
      by apply bool_decide_eq_false in Hfirst.
    + left. split; [done|]. right. exists info. split; [done|].
      apply findIndex_None in Hfind. intros Hex.
      apply Exists_exists in Hex as (n & Hin & Hid).
      rewrite Forall_forall in Hfind. specialize (Hfind n Hin).
      by apply bool_decide_eq_false in Hfind.
  - left. split; [done|]. by left.
Qed.

Lemma fmap_insert_same_image {A B : Type} (f : A → B) (l : list A) (i : nat)
    (a b : A) :
  l !! i = Some a → f a = f b → f <$> <[i := b]> l = f <$> l.
Proof.
  intros Hi Hf. rewrite list_fmap_insert. apply list_insert_id.
  by rewrite list_lookup_fmap, Hi, <-Hf.
Qed.

(** X5.  [saveEditedNode] never throws, and whatever it does, the node
    collection holds the same identifiers in the same order, the edges have
    the same identifiers, sources and targets in the same order, and the
    data objects, the persona and the graph flag are untouched. *)
Theorem saveEditedNode_keeps_identifiers (r : Store) :
  ∃ s, saveEditedNode r = Return s ∧
       node_ids s = node_ids r ∧
       edge_ends <$> edges s = edge_ends <$> edges r ∧
       heap s = heap r ∧ showGraph s = showGraph r ∧
       nodePersonaType s = nodePersonaType r ∧ nodePersona s = nodePersona r.
Proof.
  destruct (saveEditedNode_cases r)
    as [[Hsame _]|(info & i & n & _ & Hn & Hid & _ & Hsave)].
  - by exists r.
  - eexists. split; [exact Hsave|]. unfold node_ids. simpl.
    split; [by eapply fmap_insert_same_image|].
    split; [|done]. rewrite <-list_fmap_compose. by apply list_fmap_ext.
Qed.

(** X6.  Saving a second time changes nothing more. *)
Theorem saveEditedNode_idempotent (r : Store) :
  saveEditedNode r ≫= saveEditedNode = saveEditedNode r.
Proof.
  destruct (saveEditedNode_cases r)
    as [[Hsame _]|(info & i & n & _ & _ & _ & _ & Hsave)].
  - rewrite Hsame. simpl. exact Hsame.
  - rewrite Hsave. reflexivity.
Qed.

(** X7.  Where identifiers are unique, opening a node of the collection for
    editing and saving at once leaves the node collection as it was; the
    edges are reduced to identifier, source and target, the dialog is closed
    and the buffer cleared. *)
Theorem editNode_save_round_trip (i : nat) (node : Node.t) (r : Store) :
  NoDup (node_ids r) →
  nodes r !! i = Some node →
  ∃ s, editNode node r ≫= saveEditedNode = Return s ∧
       nodes s = nodes r ∧
       edges s = strip_edge <$> edges r ∧
       isDialogOpen s = false ∧ nodeInfo s = None ∧ heap s = heap r.
Proof.
  intros Hnodup Hi. unfold editNode. simpl.
  destruct (saveEditedNode_cases (openDialog (setNodeInfo (Some node) r)))
    as [[_ [Hnone|(info & Hinfo & Hnot)]]
       |(info & j & m & Hinfo & Hm & Hid & _ & Hsave)];
    simpl in *.
  - done.
  - injection Hinfo as <-. destruct Hnot. apply Exists_exists.
    exists node. split; [by eapply list_elem_of_lookup_2|done].
  - injection Hinfo as <-. eexists. split; [exact Hsave|]. simpl.
    split; [|done]. apply list_insert_id.
    assert (j = i) as ->; [|done].
    eapply NoDup_lookup; [exact Hnodup| |].
    + unfold node_ids. by rewrite list_lookup_fmap, Hm.
    + unfold node_ids. rewrite list_lookup_fmap, Hi. simpl. by rewrite Hid.
Qed.

Lemma editNode_save_round_trip_witness :
  ∃ s, editNode node_5 store_125 ≫= saveEditedNode = Return s ∧
       nodes s = nodes store_125 ∧
       edges s = strip_edge <$> edges store_125 ∧
       isDialogOpen s = false ∧ nodeInfo s = None ∧ heap s = heap store_125.
Proof.
  apply (editNode_save_round_trip 2 node_5 store_125).
  - apply (bool_decide_unpack _). vm_compute. exact I.
  - reflexivity.
Defined.

(** X8.  Saving goes by identifier, not by place: when an earlier node has
    the identifier of the node opened for editing, saving puts the edited
    node in the place of the earlier one, which is lost, and the collection
    holds the edited node twice. *)
Theorem editNode_save_overwrites_first (i j : nat) (first node : Node.t)
    (r : Store) :
  nodes r !! i = Some first →
  nodes r !! j = Some node →
  i < j →
  Node.id first = Node.id node →
  (∀ k m, k < i → nodes r !! k = Some m → Node.id m ≠ Node.id node) →
  ∃ s, editNode node r ≫= saveEditedNode = Return s ∧
       nodes s = <[i := node]> (nodes r) ∧
       nodes s !! i = Some node ∧ nodes s !! j = Some node.
Proof.
  intros Hi Hj Hlt Hid Hfirst. unfold editNode. simpl.
  destruct (saveEditedNode_cases (openDialog (setNodeInfo (Some node) r)))
    as [[_ [Hnone|(info & Hinfo & Hnot)]]
       |(info & k & m & Hinfo & Hm & Hmid & Hkfirst & Hsave)];
    simpl in *.
  - done.
  - injection Hinfo as <-. destruct Hnot. apply Exists_exists.
    exists node. split; [by eapply list_elem_of_lookup_2|done].
  - injection Hinfo as <-.
    assert (k = i) as ->.
    { destruct (Nat.lt_trichotomy k i) as [Hki|[->|Hik]]; [|done|].
      - by destruct (Hfirst k m Hki Hm).
      - by destruct (Hkfirst i first Hik Hi). }
    eexists. split; [exact Hsave|]. simpl. split; [done|]. split.
    + apply list_lookup_insert_eq. by eapply lookup_lt_Some.
    + rewrite list_lookup_insert_ne by lia. done.
Qed.

Lemma editNode_save_overwrites_first_witness :
  ∃ s, editNode (Node.mk (JString "a") None (Some "later") None ∅)
         (store_of ∅ [bare_node (JString "a");
                      Node.mk (JString "a") None (Some "later") None ∅] [])
       ≫= saveEditedNode = Return s ∧
       nodes s = <[0 := Node.mk (JString "a") None (Some "later") None ∅]>
                   [bare_node (JString "a");
                    Node.mk (JString "a") None (Some "later") None ∅] ∧
       nodes s !! 0 = Some (Node.mk (JString "a") None (Some "later") None ∅) ∧
       nodes s !! 1 = Some (Node.mk (JString "a") None (Some "later") None ∅).
Proof.
  apply (editNode_save_overwrites_first 0 1 (bare_node (JString "a"))
           (Node.mk (JString "a") None (Some "later") None ∅)
           (store_of ∅ [bare_node (JString "a");
                        Node.mk (JString "a") None (Some "later") None ∅] [])).
  - reflexivity.
  - reflexivity.
  - lia.
  - reflexivity.
  - intros k m Hk. lia.
Defined.

(** ** [updateNodeInfo] with a buffer in flight *)

Lemma get_put_eq (h : heap_t) (l : loc) (p : string) (v : jsval) :
  is_Some (h !! l) → get (put h l p v) l p = v.
Proof.
  intros [o Ho]. unfold get, put. rewrite lookup_alter_eq, Ho. simpl.
  by rewrite lookup_insert_eq.
Qed.

Lemma get_put_ne (h : heap_t) (l : loc) (p p' : string) (v : jsval) :
  p' ≠ p → get (put h l p v) l p' = get h l p'.
Proof.
  intros Hne. unfold get, put. rewrite lookup_alter_eq.
  destruct (h !! l) as [o|]; simpl; [|done]. by rewrite lookup_insert_ne.
Qed.

Lemma lookup_put_ne (h : heap_t) (l l' : loc) (p : string) (v : jsval) :
  l' ≠ l → put h l p v !! l' = h !! l'.
Proof. intros Hne. unfold put. by rewrite lookup_alter_ne. Qed.

Lemma put_put_eq (h : heap_t) (l : loc) (p : string) (v w : jsval) :
  put (put h l p v) l p w = put h l p w.
Proof.
  apply map_eq. intros k. unfold put. destruct (decide (k = l)) as [->|Hne].
  - rewrite !lookup_alter_eq. destruct (h !! l); simpl; [|done].
    by rewrite insert_insert_eq.
  - by rewrite !lookup_alter_ne.
Qed.

Lemma put_put_ne (h : heap_t) (l : loc) (p q : string) (v w : jsval) :
  p ≠ q → put (put h l p v) l q w = put (put h l q w) l p v.
Proof.
  intros Hpq. apply map_eq. intros k. unfold put.
  destruct (decide (k = l)) as [->|Hne].
  - rewrite !lookup_alter_eq. destruct (h !! l); simpl; [|done].
    by rewrite insert_insert_ne.
  - by rewrite !lookup_alter_ne.
Qed.

Lemma updateNodeInfo_write (p : string) (v : jsval) (r : Store)
    (info : Node.t) (l : loc) :
  nodeInfo r = Some info → Node.data info = Some l →
  updateNodeInfo p v r =
  Return (mkStore (put (heap r) l p v) (isDialogOpen r) (showGraph r)
                  (nodes r) (edges r) (nodePersonaType r) (nodePersona r)
                  (Some info)).
Proof. intros Hinfo Hdata. unfold updateNodeInfo. by rewrite Hinfo, Hdata. Qed.

Lemma updateNodeInfo_idle (p : string) (v : jsval) (r : Store) :
  nodeInfo r = None → updateNodeInfo p v r = Return r.
Proof. intros Hnone. unfold updateNodeInfo. by rewrite Hnone. Qed.

(** X9.  With a buffer in flight that has a data object, [updateNodeInfo]
    writes the value under the property of that object and reads back;
    the object's other properties, every other data object, the node and
    edge collections, the dialog flag and the buffer's node are as before.
    The property is any but "__proto__". *)
Theorem updateNodeInfo_writes (p : string) (v : jsval) (r : Store)
    (info : Node.t) (l : loc) :
  p ≠ "__proto__" →
  nodeInfo r = Some info →
  Node.data info = Some l →
  is_Some (heap r !! l) →
  ∃ s, updateNodeInfo p v r = Return s ∧
       get (heap s) l p = v ∧
       (∀ p', p' ≠ p → get (heap s) l p' = get (heap r) l p') ∧
       (∀ l', l' ≠ l → heap s !! l' = heap r !! l') ∧
       nodes s = nodes r ∧ edges s = edges r ∧
       nodeInfo s = Some info ∧ isDialogOpen s = isDialogOpen r.
Proof.
  intros _ Hinfo Hdata Hobj. eexists.
  split; [by apply updateNodeInfo_write|]. simpl.
  split; [by apply get_put_eq|].
  split; [intros p' Hp'; by apply get_put_ne|].
  split; [intros l' Hl'; by apply lookup_put_ne|]. done.
Qed.

Lemma updateNodeInfo_writes_witness :
  ∃ s, updateNodeInfo "name" (JString "deux") store_125 = Return s ∧
       get (heap s) 2%positive "name" = JString "deux" ∧
       (∀ p', p' ≠ "name" →
              get (heap s) 2%positive p' = get (heap store_125) 2%positive p') ∧
       (∀ l', l' ≠ 2%positive → heap s !! l' = heap store_125 !! l') ∧
       nodes s = nodes store_125 ∧ edges s = edges store_125 ∧
       nodeInfo s = Some copy_of_2 ∧ isDialogOpen s = isDialogOpen store_125.
Proof.
  apply (updateNodeInfo_writes "name" (JString "deux") store_125 copy_of_2
           2%positive).
  - discriminate.
  - reflexivity.
  - reflexivity.
  - eexists. vm_compute. reflexivity.
Defined.

(** X10.  [updateNodeInfo] throws exactly when a buffer is in flight whose
    node has no data object, and then a [TypeError]. *)
Theorem updateNodeInfo_throws_iff (p : string) (v : jsval) (r : Store)
    (e : js_error) :
  updateNodeInfo p v r = Throw e ↔
  e = TypeError ∧ ∃ info, nodeInfo r = Some info ∧ Node.data info = None.
Proof.
  unfold updateNodeInfo. destruct (nodeInfo r) as [info|].
  - destruct (Node.data info) as [l|] eqn:Hdata.
    + split; [done|]. intros [_ (info' & [= <-] & Hnone)]. congruence.
    + split; [intros [= <-]; eauto|]. by intros [-> _].
  - split; [done|]. by intros [_ (info & ? & _)].
Qed.

(** X11.  Closing the dialog does not take back what was typed: after a
    node of the collection is opened for editing, a property written and the
    dialog closed, the buffer is cleared and the node collection holds the
    same nodes, yet the node's data object has the new value.  The property
    is any but "__proto__". *)
Theorem cancelled_edit_persists (i : nat) (node : Node.t) (l : loc)
    (p : string) (v : jsval) (r : Store) :
  p ≠ "__proto__" →
  nodes r !! i = Some node →
  Node.data node = Some l →
  is_Some (heap r !! l) →
  ∃ s, (editNode node r ≫= updateNodeInfo p v)
         ≫= (λ s, Return (closeDialog s)) = Return s ∧
       nodeInfo s = None ∧ isDialogOpen s = false ∧
       nodes s = nodes r ∧ nodes s !! i = Some node ∧
       get (heap s) l p = v.
Proof.
  intros _ Hi Hdata Hobj. unfold editNode. simpl.
  rewrite (updateNodeInfo_write p v _ node l) by done. simpl.
  eexists. split; [reflexivity|]. simpl. repeat split; try done.
  by apply get_put_eq.
Qed.

Lemma cancelled_edit_persists_witness :
  ∃ s, (editNode node_5 store_125 ≫= updateNodeInfo "label" (JString "five"))
         ≫= (λ s, Return (closeDialog s)) = Return s ∧
       nodeInfo s = None ∧ isDialogOpen s = false ∧
       nodes s = nodes store_125 ∧ nodes s !! 2 = Some node_5 ∧
       get (heap s) 3%positive "label" = JString "five".
Proof.
  apply (cancelled_edit_persists 2 node_5 3%positive "label" (JString "five")
           store_125).
  - discriminate.
  - reflexivity.
  - reflexivity.
  - eexists. vm_compute. reflexivity.
Defined.

(** X12.  Of two writes to the same property, any but "__proto__", the
    later one stands. *)
Theorem updateNodeInfo_last_write_wins (p : string) (v w : jsval) (r : Store) :
  p ≠ "__proto__" →
  updateNodeInfo p v r ≫= updateNodeInfo p w = updateNodeInfo p w r.
Proof.
  intros _. destruct (nodeInfo r) as [info|] eqn:Hinfo.
  - destruct (Node.data info) as [l|] eqn:Hdata.
    + rewrite (updateNodeInfo_write p v r info l) by done. simpl.
      rewrite (updateNodeInfo_write p w _ info l) by done.
      rewrite (updateNodeInfo_write p w r info l) by done. simpl.
      by rewrite put_put_eq.
    + unfold updateNodeInfo. by rewrite Hinfo, Hdata.
  - rewrite !updateNodeInfo_idle by done. simpl.
    by rewrite !updateNodeInfo_idle.
Qed.

Lemma updateNodeInfo_last_write_wins_witness :
  updateNodeInfo "name" (JString "deux") store_125
    ≫= updateNodeInfo "name" (JString "due") =
  updateNodeInfo "name" (JString "due") store_125.
Proof.
  apply (updateNodeInfo_last_write_wins "name" (JString "deux") (JString "due")
           store_125).
  discriminate.
Defined.

(** X13.  Writes to different properties can be made in either order. *)
Theorem updateNodeInfo_commutes (p q : string) (v w : jsval) (r : Store) :
  p ≠ q →
  updateNodeInfo p v r ≫= updateNodeInfo q w =
  updateNodeInfo q w r ≫= updateNodeInfo p v.
Proof.
  intros Hne. destruct (nodeInfo r) as [info|] eqn:Hinfo.
  - destruct (Node.data info) as [l|] eqn:Hdata.
    + rewrite (updateNodeInfo_write p v r info l) by done.
      rewrite (updateNodeInfo_write q w r info l) by done. simpl.
      rewrite (updateNodeInfo_write q w _ info l) by done.
      rewrite (updateNodeInfo_write p v _ info l) by done. simpl.
      by rewrite put_put_ne.
    + unfold updateNodeInfo. by rewrite Hinfo, Hdata.
  - rewrite !updateNodeInfo_idle by done. simpl.
    by rewrite !updateNodeInfo_idle.
Qed.

Lemma updateNodeInfo_commutes_witness :
  updateNodeInfo "label" (JString "deux") store_125
    ≫= updateNodeInfo "name" (JNumber 2) =
  updateNodeInfo "name" (JNumber 2) store_125
    ≫= updateNodeInfo "label" (JString "deux").
Proof.
  apply (updateNodeInfo_commutes "label" "name" (JString "deux") (JNumber 2)
           store_125).
  discriminate.
Defined.

(** ** [createNewNode] and [addNode], again *)

Lemma label_usable_allocated (h : heap_t) (n : Node.t) (l : loc) :
  label_usable h n → Node.data n = Some l → is_Some (h !! l).
Proof.
  unfold label_usable, get. intros Husable Hdata. rewrite Hdata in Husable.
  destruct (h !! l); [by eexists|done].
Qed.

Lemma label_of_insert_fresh (h : heap_t) (n : Node.t) (l : loc) (o : data_object) :
  label_usable h n → h !! l = None → label_of (<[l := o]> h) n = label_of h n.
Proof.
  intros Husable Hfresh. unfold label_of, get.
  destruct (Node.data n) as [l'|] eqn:Hdata; [|done].
  destruct (label_usable_allocated h n l' Husable Hdata) as [o' Ho'].
  rewrite lookup_insert_ne by congruence. done.
Qed.

Lemma label_usable_insert_fresh (h : heap_t) (n : Node.t) (l : loc)
    (o : data_object) :
  label_usable h n → h !! l = None → label_usable (<[l := o]> h) n.
Proof.
  intros Husable Hfresh. pose proof (label_of_insert_fresh h n l o Husable Hfresh) as Heq.
  unfold label_usable, label_of in *. destruct (Node.data n); [|done].
  by rewrite Heq.
Qed.

Lemma filter_marker_insert_fresh (h : heap_t) (ns : list Node.t) (l : loc)
    (o : data_object) :
  Forall (label_usable h) ns → h !! l = None →
  filter (λ n, label_has_marker (<[l := o]> h) n) ns =
  filter (λ n, label_has_marker h n) ns.
Proof.
  intros Husable Hfresh. induction Husable as [|n ns Hn _ IH]; [done|].
  rewrite !filter_cons, IH. unfold label_has_marker.
  by rewrite (label_of_insert_fresh h n l o Hn Hfresh).
Qed.

Lemma get_new_label (h : heap_t) (l : loc) (label name : jsval) :
  get (<[l := {[ "label" := label; "name" := name ]}]> h) l "label" = label.
Proof. unfold get. rewrite lookup_insert_eq. simpl. by rewrite lookup_insert_eq. Qed.

Lemma new_node_label_has_marker (k : nat) :
  includes ("new node " +:+ pretty k) "new node" = true.
Proof. apply includes_occurs. by exists "", (" " +:+ pretty k). Qed.

Section Synthesis2.

Variables CANVAS_WIDTH CANVAS_HEIGHT : Q.

Local Abbreviation W := CANVAS_WIDTH.
Local Abbreviation H := CANVAS_HEIGHT.

Lemma createNewNode_Return_inv (r : Store) (n : Node.t) (h : heap_t) :
  createNewNode W H r = Return (n, h) →
  ∃ lastNode, last (nodes r) = Some lastNode ∧
              Node.id n = next_id (Node.id lastNode).
Proof.
  unfold createNewNode.
  destruct (array_filter _ (nodes r)) as [kept|e]; simpl; [|done].
  destruct (last (nodes r)) as [lastNode|]; simpl; [|done].
  intros [= <- _]. by exists lastNode.
Qed.

Lemma addNode_default_Throw (r : Store) :
  ¬ synthesizable r → addNode W H None r = Throw TypeError.
Proof.
  intros Hnot. unfold addNode. rewrite createNewNode_Throw; [done|].
  unfold synthesizable in Hnot.
  destruct (decide (nodes r = [])); [by left|right]. tauto.
Qed.

(** X14.  A label that is not a string, written through the edit buffer
    into the data object of a node of the collection, makes [addNode()]
    throw a [TypeError] from then on. *)
Theorem non_string_label_blocks_addNode (i : nat) (node info : Node.t)
    (l : loc) (v : jsval) (r : Store) :
  nodeInfo r = Some info →
  Node.data info = Some l →
  nodes r !! i = Some node →
  Node.data node = Some l →
  is_Some (heap r !! l) →
  is_string v = false →
  ∃ s, updateNodeInfo "label" v r = Return s ∧
       addNode W H None s = Throw TypeError.
Proof.
  intros Hinfo Hdata Hi Hnode Hobj Hv. eexists.
  split; [by apply updateNodeInfo_write|].
  apply addNode_default_Throw. unfold synthesizable. simpl.
  intros [_ Hall]. rewrite Forall_forall in Hall.
  specialize (Hall node (list_elem_of_lookup_2 _ _ _ Hi)).
  unfold label_usable in Hall. rewrite Hnode, get_put_eq in Hall by done.
  by rewrite Hv in Hall.
Qed.

(** X15.  [createNewNode] throws exactly when the node collection is empty
    or holds a node whose data object has no string for a label, and then a
    [TypeError]. *)
Theorem createNewNode_throws_iff (r : Store) (e : js_error) :
  createNewNode W H r = Throw e ↔ e = TypeError ∧ ¬ synthesizable r.
Proof.
  unfold synthesizable. split.
  - intros Hthrow. destruct (decide (nodes r = [])) as [Hnil|Hne].
    + rewrite createNewNode_Throw in Hthrow by (by left).
      injection Hthrow as <-. split; [done|]. tauto.
    + destruct (decide (Forall (label_usable (heap r)) (nodes r))) as [Hall|Hnot].
      * destruct (last (nodes r)) as [lastNode|] eqn:Hlast.
        -- pose proof (createNewNode_Return W H r lastNode Hlast Hall) as Hret.
           simpl in Hret. congruence.
        -- by apply last_None in Hlast.
      * rewrite createNewNode_Throw in Hthrow by (by right).
        injection Hthrow as <-. split; [done|]. tauto.
  - intros [-> Hnot]. apply createNewNode_Throw.
    destruct (decide (nodes r = [])); [by left|right]. tauto.
Qed.

(** X16.  Where [addNode()] can synthesize the default node it can do so
    again on the store it leaves: the appended node is labelled and named
    "new node " with the count of such labels before, and the count has
    grown by one, so that default nodes added in a row are numbered in a
    row. *)
Theorem addNode_default_numbering (r : Store) :
  synthesizable r →
  ∃ s n, addNode W H None r = Return s ∧
         last (nodes s) = Some n ∧
         label_of (heap s) n =
           JString ("new node " +:+ pretty (new_node_count r)) ∧
         synthesizable s ∧
         new_node_count s = S (new_node_count r).
Proof.
  intros [Hne Husable].
  destruct (last (nodes r)) as [lastNode|] eqn:Hlast;
    [|by apply last_None in Hlast].
  pose proof (createNewNode_Return W H r lastNode Hlast Husable) as Hcreate.
  simpl in Hcreate. unfold addNode. rewrite Hcreate. simpl.
  set (l := fresh (dom (heap r))) in *.
  assert (heap r !! l = None) as Hfresh by apply not_elem_of_dom, is_fresh.
  do 2 eexists. split; [reflexivity|]. simpl.
  split; [apply last_snoc|].
  split; [unfold label_of; simpl; apply get_new_label|].
  split.
  - split; [by destruct (nodes r)|]. simpl. apply Forall_app. split.
    + eapply Forall_impl; [exact Husable|]. intros n Hn.
      by apply label_usable_insert_fresh.
    + constructor; [|constructor]. unfold label_usable. simpl.
      by rewrite get_new_label.
  - unfold new_node_count. simpl. rewrite filter_app, length_app.
    rewrite filter_marker_insert_fresh by done.
    rewrite filter_cons_True; [simpl; lia|].
    unfold label_has_marker, label_of. simpl. rewrite get_new_label.
    by rewrite new_node_label_has_marker.
Qed.

End Synthesis2.

Lemma addNode_default_numbering_witness :
  ∃ s n, addNode 800 600 None store_125 = Return s ∧
         last (nodes s) = Some n ∧
         label_of (heap s) n =
           JString ("new node " +:+ pretty (new_node_count store_125)) ∧
         synthesizable s ∧
         new_node_count s = S (new_node_count store_125).
Proof.
  apply (addNode_default_numbering 800 600 store_125).
  apply (bool_decide_unpack _). vm_compute. exact I.
Defined.

Lemma non_string_label_blocks_addNode_witness :
  ∃ s, updateNodeInfo "label" (JNumber 7) store_125 = Return s ∧
       addNode 800 600 None s = Throw TypeError.
Proof.
  apply (non_string_label_blocks_addNode 800 600 1 node_2 copy_of_2 2%positive
           (JNumber 7) store_125); try reflexivity.
  eexists. vm_compute. reflexivity.
Defined.

(** ** Sequences of actions *)

Lemma Forall_sublist_of {A : Type} (P : A → Prop) (k l : list A) :
  k `sublist_of` l → Forall P l → Forall P k.
Proof.
  intros Hsub. rewrite !Forall_forall. intros Hall a Ha.
  apply Hall. by eapply elem_of_sublist.
Qed.

Lemma StronglySorted_sublist_of {A : Type} (R : relation A) (k l : list A) :
  k `sublist_of` l → StronglySorted R l → StronglySorted R k.
Proof.
  intros Hsub Hl. revert k Hsub.
  induction Hl as [|a l Hl IH Ha]; intros k Hsub.
  - apply sublist_nil_r in Hsub as ->. constructor.
  - apply sublist_cons_r in Hsub as [Hsub|(k' & -> & Hsub)]; [by apply IH|].
    constructor; [by apply IH|]. by eapply Forall_sublist_of.
Qed.

Lemma StronglySorted_NoDup {A : Type} (R : relation A) (l : list A) :
  (∀ a, ¬ R a a) → StronglySorted R l → NoDup l.
Proof.
  intros Hirr. induction 1 as [|a l _ IH Ha]; constructor; [|done].
  intros Hin. rewrite Forall_forall in Ha. by apply (Hirr a), Ha.
Qed.

Lemma id_lt_irrefl (a : jsval) : ¬ id_lt a a.
Proof. destruct a; simpl; lia. Qed.

Lemma increasing_ids_snoc (ids : list jsval) (i : jsval) :
  Forall is_number (ids ++ [i]) → StronglySorted id_lt (ids ++ [i]) →
  Forall is_number ((ids ++ [i]) ++ [next_id i]) ∧
  StronglySorted id_lt ((ids ++ [i]) ++ [next_id i]).
Proof.
  intros Hnum Hsorted.
  assert (is_number i) as Hi.
  { apply Forall_app in Hnum as [_ Hi]. by apply Forall_cons in Hi as [Hi _]. }
  destruct i as [| |z|]; try done. simpl. split.
  - apply Forall_app. split; [done|]. by constructor.
  - apply StronglySorted_app_2; [|done|repeat constructor].
    intros x1 x2 Hx1 Hx2. apply list_elem_of_singleton in Hx2 as ->.
    apply elem_of_app in Hx1 as [Hx1|Hx1].
    + assert (id_lt x1 (JNumber z)) as Hlt.
      { eapply StronglySorted_app_1_elem_of; [exact Hsorted|done|by left]. }
      destruct x1; simpl in *; try done. lia.
    + apply list_elem_of_singleton in Hx1 as ->. simpl. lia.
Qed.

Section ActionFacts.

Variables CANVAS_WIDTH CANVAS_HEIGHT : Q.

Local Abbreviation W := CANVAS_WIDTH.
Local Abbreviation H := CANVAS_HEIGHT.

(** An invariant of the permitted actions is an invariant of their
    sequences. *)
Lemma perform_all_invariant (Inv : Store → Prop) (ok : action → Prop) :
  (∀ a r s, ok a → Inv r → perform W H a r = Return s → Inv s) →
  ∀ actions r, Forall ok actions → Inv r → Inv (perform_all W H actions r).
Proof.
  intros Hstep actions. induction actions as [|a actions IH]; intros r Hok Hr.
  - done.
  - apply Forall_cons in Hok as [Ha Hok]. simpl. apply IH; [done|].
    destruct (perform W H a r) as [s|e] eqn:Hperform; simpl; [|done].
    by eapply Hstep.
Qed.

Lemma duplicateNode_Return (node : Node.t) (r : Store) :
  ∃ (l : loc) (o : data_object),
    heap r !! l = None ∧
    duplicateNode W H node r =
    Return (mkStore (<[l := o]> (heap r)) true (showGraph r)
              (nodes r ++ [Node.mk (JString (pretty (length (nodes r)))) (Some l)
                             (Node.type node) (Node.position node)
                             (Node.rest node)])
              (edges r) (nodePersonaType r) (nodePersona r)
              (Some (Node.mk (JString (pretty (length (nodes r)))) (Some l)
                             (Node.type node) (Node.position node)
                             (Node.rest node)))).
Proof.
  exists (fresh (dom (heap r))). eexists.
  split; [apply not_elem_of_dom, is_fresh|]. reflexivity.
Qed.

Lemma updateNodeInfo_Return (p : string) (v : jsval) (r s : Store) :
  updateNodeInfo p v r = Return s →
  nodes s = nodes r ∧ edges s = edges r ∧ showGraph s = showGraph r.
Proof.
  unfold updateNodeInfo. destruct (nodeInfo r) as [info|].
  - destruct (Node.data info); [|done]. by intros [= <-].
  - by intros [= <-].
Qed.

(** What an action that takes no edge collection from its caller does to
    nodes and edges: it leaves the identifiers and at most strips the
    edges, or appends one node, or deletes a node with its edges. *)
Lemma perform_local_cases (a : action) (r s : Store) :
  takes_collection a = false →
  perform W H a r = Return s →
  (node_ids s = node_ids r ∧
   (edges s = edges r ∨ edges s = strip_edge <$> edges r)) ∨
  (∃ n, nodes s = nodes r ++ [n] ∧ edges s = edges r ∧
        ((a = ActAddNode None ∧
          ∃ lastNode, last (nodes r) = Some lastNode ∧
                      Node.id n = next_id (Node.id lastNode)) ∨
         keeps_numbering a = false)) ∨
  (∃ node, nodes s = filter (λ n, Node.id n ≠ Node.id node) (nodes r) ∧
           edges s = filter (λ e, ¬ (Edge.source e = Node.id node
                                     ∨ Edge.target e = Node.id node)) (edges r)).
Proof.
  intros Hlocal Hperform.
  destruct a as [| |topology| | |edge| |node|node|node|p v| |node|ns|es]; simpl in *;
    try done.
  - injection Hperform as <-. left. split; [done|by left].
  - injection Hperform as <-. left. split; [done|by left].
  - injection Hperform as <-. left. split; [done|by left].
  - injection Hperform as <-. left. split; [done|by left].
  - injection Hperform as <-. left. split; [done|by left].
  - right. left. apply addNode_Return in Hperform as (n & h & Hn & ->).
    exists n. simpl. split; [done|]. split; [done|].
    destruct node as [given|]; [by right|left]. split; [done|].
    by eapply createNewNode_Return_inv.
  - injection Hperform as <-. left. split; [done|by left].
  - right. left. destruct (duplicateNode_Return node r) as (l & o & _ & Hdup).
    rewrite Hdup in Hperform. injection Hperform as <-.
    eexists. simpl. split; [done|]. split; [done|]. by right.
  - apply updateNodeInfo_Return in Hperform as (Hn & He & _).
    left. unfold node_ids. rewrite Hn. split; [done|by left].
  - left. destruct (saveEditedNode_cases r)
      as [[Hsame _]|(info & i & n & _ & Hn & Hid & _ & Hsave)].
    + rewrite Hsame in Hperform. injection Hperform as <-. split; [done|by left].
    + rewrite Hsave in Hperform. injection Hperform as <-.
      unfold node_ids. simpl. split; [by eapply fmap_insert_same_image|by right].
  - right. right. rewrite deleteNode_unfold in Hperform.
    injection Hperform as <-. by exists node.
Qed.

End ActionFacts.

Lemma referential_integrity_ids (r : Store) :
  referential_integrity r ↔
  Forall (λ e, Edge.source e ∈ node_ids r ∧ Edge.target e ∈ node_ids r)
         (edges r).
Proof.
  unfold referential_integrity. apply Forall_iff. intros e.
  by rewrite !has_node_ids.
Qed.

Lemma edge_ends_strip (es : list Edge.t) :
  edge_ends <$> (strip_edge <$> es) = edge_ends <$> es.
Proof. rewrite <-list_fmap_compose. by apply list_fmap_ext. Qed.

Section ActionInvariants.

Variables CANVAS_WIDTH CANVAS_HEIGHT : Q.

Local Abbreviation W := CANVAS_WIDTH.
Local Abbreviation H := CANVAS_HEIGHT.

Lemma perform_showGraph (a : action) (r s : Store) :
  perform W H a r = Return s → showGraph r = true → showGraph s = true.
Proof.
  intros Hperform Hshown.
  destruct a as [| |topology| | |edge| |node|node|node|p v| |node|ns|es]; simpl in *.
  - by injection Hperform as <-.
  - by injection Hperform as <-.
  - by injection Hperform as <-.
  - by injection Hperform as <-.
  - by injection Hperform as <-.
  - by injection Hperform as <-.
  - by injection Hperform as <-.
  - apply addNode_Return in Hperform as (n & h & _ & ->). done.
  - by injection Hperform as <-.
  - destruct (duplicateNode_Return W H node r) as (l & o & _ & Hdup).
    rewrite Hdup in Hperform. by injection Hperform as <-.
  - apply updateNodeInfo_Return in Hperform as (_ & _ & ->). done.
  - destruct (saveEditedNode_cases r)
      as [[Hsame _]|(info & i & n & _ & _ & _ & _ & Hsave)];
      [rewrite Hsame in Hperform|rewrite Hsave in Hperform];
      by injection Hperform as <-.
  - rewrite deleteNode_unfold in Hperform. by injection Hperform as <-.
  - by injection Hperform as <-.
  - by injection Hperform as <-.
Qed.

(** X17.  Once the graph is shown no sequence of callbacks hides it. *)
Theorem showGraph_never_reset (actions : list action) (r : Store) :
  showGraph r = true → showGraph (perform_all W H actions r) = true.
Proof.
  intros Hshown.
  apply (perform_all_invariant W H (λ s, showGraph s = true) (λ _, True));
    [|by apply Forall_true|done].
  intros a r' s _ Hr' Hperform. by eapply perform_showGraph.
Qed.

Lemma referential_integrity_perform (a : action) (r s : Store) :
  takes_collection a = false → referential_integrity r →
  perform W H a r = Return s → referential_integrity s.
Proof.
  intros Hlocal Hr Hperform.
  destruct (perform_local_cases W H a r s Hlocal Hperform)
    as [[Hids Hedges]|[(n & Hnodes & Hedges & _)|(node & Hnodes & Hedges)]].
  - apply referential_integrity_ids. apply referential_integrity_ids in Hr.
    rewrite Hids. destruct Hedges as [->| ->]; [done|].
    apply Forall_fmap. eapply Forall_impl; [exact Hr|]. done.
  - apply referential_integrity_ids. apply referential_integrity_ids in Hr.
    unfold node_ids in *. rewrite Hnodes, Hedges, fmap_app.
    eapply Forall_impl; [exact Hr|]. simpl. intros e [Hs Ht].
    split; apply elem_of_app; by left.
  - pose proof (referential_integrity_deleteNode node r _ Hr
                  (deleteNode_unfold node r)) as Hdel.
    unfold referential_integrity, has_node in *. simpl in Hdel.
    by rewrite Hnodes, Hedges.
Qed.

(** X18.  Every edge still runs between two nodes of the collection after
    any sequence of calls of the provider's callbacks, [updateNodeInfo],
    [saveEditedNode], [duplicateNode] and [editNode] among them, as long as
    none of the calls takes a node or edge collection from its caller
    ([setNodePersonaFunc], [setNodeEdges], the raw [setNodes] and
    [setEdges]); reactflow's change handlers are not covered. *)
Theorem referential_integrity_local_actions (actions : list action) (r : Store) :
  Forall (λ a, takes_collection a = false) actions →
  referential_integrity r →
  referential_integrity (perform_all W H actions r).
Proof.
  apply perform_all_invariant. intros a r' s Ha Hr' Hperform.
  by eapply referential_integrity_perform.
Qed.

(** X19.  Only the calls that take a collection from their caller
    ([setNodePersonaFunc], [setNodeEdges], the raw [setNodes] and
    [setEdges]) can add an edge or change what an edge connects: after any
    sequence of calls of the other eleven callbacks, the identifiers,
    sources and targets of the edges are a sublist of those at the start.
    reactflow's change handlers are not covered. *)
Theorem edges_never_gained (actions : list action) (r : Store) :
  Forall (λ a, takes_collection a = false) actions →
  edge_ends <$> edges (perform_all W H actions r)
    `sublist_of` edge_ends <$> edges r.
Proof.
  intros Hlocal.
  apply (perform_all_invariant W H
           (λ s, edge_ends <$> edges s `sublist_of` edge_ends <$> edges r)
           (λ a, takes_collection a = false)); [|done|done].
  intros a r' s Ha Hr' Hperform. etrans; [|exact Hr'].
  destruct (perform_local_cases W H a r' s Ha Hperform)
    as [[_ [->| ->]]|[(n & _ & -> & _)|(node & _ & ->)]].
  - done.
  - by rewrite edge_ends_strip.
  - done.
  - apply fmap_sublist, sublist_filter.
Qed.

(** X20.  Edges that carry no more than identifier, source and target stay
    so under every sequence of calls of the eleven callbacks that take no
    collection from their caller (all but [setNodePersonaFunc],
    [setNodeEdges], the raw [setNodes] and [setEdges]); reactflow's change
    handlers are not covered. *)
Theorem bare_edges_kept (actions : list action) (r : Store) :
  Forall (λ a, takes_collection a = false) actions →
  bare_edges r →
  bare_edges (perform_all W H actions r).
Proof.
  apply perform_all_invariant. intros a r' s Ha Hr' Hperform.
  unfold bare_edges in *.
  destruct (perform_local_cases W H a r' s Ha Hperform)
    as [[_ [->| ->]]|[(n & _ & -> & _)|(node & _ & ->)]].
  - done.
  - apply Forall_fmap, Forall_true. done.
  - done.
  - eapply Forall_sublist_of; [apply sublist_filter|done].
Qed.

Lemma increasing_ids_perform (a : action) (r s : Store) :
  keeps_numbering a = true → increasing_ids r →
  perform W H a r = Return s → increasing_ids s.
Proof.
  intros Ha [Hnum Hsorted] Hperform.
  assert (takes_collection a = false) as Hlocal by (by destruct a).
  destruct (perform_local_cases W H a r s Hlocal Hperform)
    as [[Hids _]|[(n & Hnodes & _ & [[_ (lastNode & Hlast & Hid)]|Hno])
                 |(node & Hnodes & _)]].
  - unfold increasing_ids. by rewrite Hids.
  - apply last_Some in Hlast as [front Hfront].
    unfold increasing_ids, node_ids in *.
    rewrite Hnodes, Hfront, !fmap_app in *. simpl in *. rewrite Hid.
    by apply increasing_ids_snoc.
  - congruence.
  - assert (node_ids s `sublist_of` node_ids r) as Hsub.
    { unfold node_ids. rewrite Hnodes. apply fmap_sublist, sublist_filter. }
    split; [by eapply Forall_sublist_of|by eapply StronglySorted_sublist_of].
Qed.

Lemma ids_below_mono (b b' : Z) (r : Store) :
  (b ≤ b')%Z → ids_below b r → ids_below b' r.
Proof.
  intros Hle Hb. unfold ids_below in *. eapply Forall_impl; [exact Hb|].
  intros [| |z|]; simpl; try done. lia.
Qed.

Lemma safe_below_next_id (b : Z) (i : jsval) :
  is_number i → safe_below b i → safe_below (b + 1) (next_id i).
Proof. destruct i as [| |z|]; simpl; try done. lia. Qed.

Lemma ids_below_perform (b : Z) (a : action) (r s : Store) :
  keeps_numbering a = true → increasing_ids r → ids_below b r →
  perform W H a r = Return s → ids_below (b + 1) s.
Proof.
  intros Ha [Hnum _] Hb Hperform.
  assert (takes_collection a = false) as Hlocal by (by destruct a).
  destruct (perform_local_cases W H a r s Hlocal Hperform)
    as [[Hids _]|[(n & Hnodes & _ & [[_ (lastNode & Hlast & Hid)]|Hno])
                 |(node & Hnodes & _)]].
  - apply (ids_below_mono b); [lia|]. unfold ids_below. by rewrite Hids.
  - apply last_Some_elem_of in Hlast.
    unfold ids_below, node_ids in *. rewrite Hnodes, fmap_app. simpl.
    apply Forall_app. split.
    + eapply Forall_impl; [exact Hb|]. intros [| |z|]; simpl; try done. lia.
    + constructor; [|constructor]. rewrite Hid.
      rewrite Forall_forall in Hnum, Hb.
      apply safe_below_next_id.
      * apply Hnum. by apply list_elem_of_fmap_2.
      * apply Hb. by apply list_elem_of_fmap_2.
  - congruence.
  - apply (ids_below_mono b); [lia|]. unfold ids_below, node_ids in *.
    rewrite Hnodes. eapply Forall_sublist_of; [|exact Hb].
    apply fmap_sublist, sublist_filter.
Qed.

(** X21.  Numeric identifiers in increasing order stay numeric, increasing
    and hence unique under every sequence of calls in which nodes are
    appended by [addNode()] only, without argument, and no collection is
    taken from the caller (no [duplicateNode], [setNodePersonaFunc],
    [setNodeEdges], raw [setNodes] or [setEdges]), provided the identifiers
    start above [-2^53] and as many below [2^53] as there are calls: there
    every increment is exact in a double, and the identifiers stay below
    [2^53]. *)
Theorem increasing_ids_kept (actions : list action) (r : Store) :
  Forall (λ a, keeps_numbering a = true) actions →
  increasing_ids r →
  ids_below (2 ^ 53 - Z.of_nat (length actions)) r →
  increasing_ids (perform_all W H actions r) ∧
  NoDup (node_ids (perform_all W H actions r)) ∧
  ids_below (2 ^ 53) (perform_all W H actions r).
Proof.
  intros Hactions Hr Hb.
  assert (increasing_ids (perform_all W H actions r) ∧
          ids_below (2 ^ 53) (perform_all W H actions r)) as [Hs Hbs].
  { revert r Hactions Hr Hb.
    induction actions as [|a actions IH]; intros r Hactions Hr Hb.
    - split; [done|]. eapply ids_below_mono; [|exact Hb]. simpl. lia.
    - apply Forall_cons in Hactions as [Ha Hactions]. simpl.
      destruct (perform W H a r) as [s|e] eqn:Hperform; simpl.
      + apply IH; [done|by eapply increasing_ids_perform|].
        eapply ids_below_mono; [|by eapply ids_below_perform].
        rewrite length_cons. lia.
      + apply IH; [done..|]. eapply ids_below_mono; [|exact Hb].
        rewrite length_cons. lia. }
  split; [done|]. split; [|done]. destruct Hs as [_ Hsorted].
  eapply StronglySorted_NoDup; [apply id_lt_irrefl|done].
Qed.

End ActionInvariants.

Lemma showGraph_never_reset_witness :
  showGraph (perform_all 800 600 session (setShowGraph true store_125)) = true.
Proof.
  apply (showGraph_never_reset 800 600 session (setShowGraph true store_125)).
  reflexivity.
Defined.

Lemma referential_integrity_local_actions_witness :
  referential_integrity (perform_all 800 600 session store_125).
Proof.
  apply (referential_integrity_local_actions 800 600 session store_125).
  - apply (bool_decide_unpack _). vm_compute. exact I.
  - apply (bool_decide_unpack _). vm_compute. exact I.
Defined.

Lemma edges_never_gained_witness :
  edge_ends <$> edges (perform_all 800 600 session store_125)
    `sublist_of` edge_ends <$> edges store_125.
Proof.
  apply (edges_never_gained 800 600 session store_125).
  apply (bool_decide_unpack _). vm_compute. exact I.
Defined.

Lemma bare_edges_kept_witness :
  bare_edges (perform_all 800 600 session_ab store_ab).
Proof.
  apply (bare_edges_kept 800 600 session_ab store_ab).
  - apply (bool_decide_unpack _). vm_compute. exact I.
  - apply (bool_decide_unpack _). vm_compute. exact I.
Defined.

Lemma increasing_ids_kept_witness :
  increasing_ids (perform_all 800 600 numbered_session store_125) ∧
  NoDup (node_ids (perform_all 800 600 numbered_session store_125)) ∧
  ids_below (2 ^ 53) (perform_all 800 600 numbered_session store_125).
Proof.
  apply (increasing_ids_kept 800 600 numbered_session store_125).
  - apply (bool_decide_unpack _). vm_compute. exact I.
  - apply (bool_decide_unpack _). vm_compute. exact I.
  - apply (bool_decide_unpack _). vm_compute. exact I.
Defined.

Example session_ab_result :
  nodes (perform_all 800 600 session_ab store_ab) =
    [bare_node (JString "a"); bare_node (JString "d")] ∧
  edges (perform_all 800 600 session_ab store_ab) = [].
Proof. split; reflexivity. Qed.

Example numbered_session_ids :
  node_ids (perform_all 800 600 numbered_session store_125) =
  [JNumber 1; JNumber 5; JNumber 6; JNumber 7].
Proof. reflexivity. Qed.

(** ** [duplicateNode], again *)

Section Duplicates.

Variables CANVAS_WIDTH CANVAS_HEIGHT : Q.

Local Abbreviation W := CANVAS_WIDTH.
Local Abbreviation H := CANVAS_HEIGHT.

(** X22.  [duplicateNode] appends the node count in decimal as identifier;
    the identifiers are unique afterwards exactly when they were unique
    before and no node had that identifier already. *)
Theorem duplicateNode_unique_iff (node : Node.t) (r : Store) :
  ∃ s, duplicateNode W H node r = Return s ∧
       node_ids s = node_ids r ++ [JString (pretty (length (nodes r)))] ∧
       (NoDup (node_ids s) ↔
        NoDup (node_ids r) ∧
        ¬ has_node r (JString (pretty (length (nodes r))))).
Proof.
  destruct (duplicateNode_Return W H node r) as (l & o & _ & Hdup).
  eexists. split; [exact Hdup|]. unfold node_ids. simpl.
  rewrite fmap_app. simpl. split; [done|].
  rewrite NoDup_app, has_node_ids. unfold node_ids. split.
  - intros (Hnodup & Hdisjoint & _). split; [done|].
    intros Hin. apply (Hdisjoint _ Hin). by left.
  - intros [Hnodup Hnew]. split; [done|]. split; [|apply NoDup_singleton].
    intros i Hi Hi'. apply list_elem_of_singleton in Hi' as ->. done.
Qed.

(** X23.  The duplicate has a data object of its own: a property written
    while the duplicate is in the edit buffer reads back from that object
    and leaves every data object that existed before as it was.  The
    property is any but "__proto__". *)
Theorem duplicateNode_isolates_edits (node : Node.t) (p : string) (v : jsval)
    (r : Store) :
  p ≠ "__proto__" →
  ∃ s clone l,
    duplicateNode W H node r ≫= updateNodeInfo p v = Return s ∧
    nodeInfo s = Some clone ∧ last (nodes s) = Some clone ∧
    Node.data clone = Some l ∧
    heap r !! l = None ∧
    get (heap s) l p = v ∧
    (∀ l', l' ≠ l → heap s !! l' = heap r !! l').
Proof.
  intros _.
  destruct (duplicateNode_Return W H node r) as (l & o & Hfresh & Hdup).
  rewrite Hdup. simpl.
  erewrite updateNodeInfo_write; [|reflexivity|reflexivity]. simpl.
  do 3 eexists. split; [reflexivity|]. simpl.
  split; [done|]. split; [apply last_snoc|]. split; [done|]. split; [done|].
  split.
  - apply get_put_eq. rewrite lookup_insert_eq. by eexists.
  - intros l' Hl'. rewrite lookup_put_ne by done. by rewrite lookup_insert_ne.
Qed.

(** X24.  A node given to [addNode] under an identifier no node has yet and
    saved at once is the last node of the collection, the others as before;
    the edges are reduced to identifier, source and target, the dialog is
    closed again and the buffer cleared. *)
Theorem addNode_save_fresh (node : Node.t) (r : Store) :
  ¬ has_node r (Node.id node) →
  ∃ s, addNode W H (Some node) r ≫= saveEditedNode = Return s ∧
       nodes s = nodes r ++ [node] ∧
       edges s = strip_edge <$> edges r ∧
       isDialogOpen s = false ∧ nodeInfo s = None.
Proof.
  intros Hfresh. unfold addNode. simpl.
  match goal with |- ∃ s, saveEditedNode ?s1 = _ ∧ _ =>
    destruct (saveEditedNode_cases s1)
      as [[_ [Hnone|(info & Hinfo & Hnot)]]
         |(info & i & m & Hinfo & Hm & Hid & Hfirst & Hsave)]
  end; simpl in *.
  - done.
  - injection Hinfo as <-. destruct Hnot. apply Exists_app. right. by left.
  - injection Hinfo as <-. eexists. split; [exact Hsave|]. simpl.
    split; [|done]. apply list_insert_id.
    destruct (decide (i < length (nodes r))) as [Hlt|Hge].
    + rewrite lookup_app_l in Hm by done. destruct Hfresh.
      apply Exists_exists. exists m. split; [by eapply list_elem_of_lookup_2|done].
    + pose proof (lookup_lt_Some _ _ _ Hm) as Hi.
      rewrite length_app in Hi. simpl in Hi.
      assert (i = length (nodes r)) as -> by lia.
      by rewrite list_lookup_middle.
Qed.

End Duplicates.

Lemma duplicateNode_isolates_edits_witness :
  ∃ s clone l,
    duplicateNode 800 600 node_5 store_125
      ≫= updateNodeInfo "label" (JString "copy") = Return s ∧
    nodeInfo s = Some clone ∧ last (nodes s) = Some clone ∧
    Node.data clone = Some l ∧
    heap store_125 !! l = None ∧
    get (heap s) l "label" = JString "copy" ∧
    (∀ l', l' ≠ l → heap s !! l' = heap store_125 !! l').
Proof.
  apply (duplicateNode_isolates_edits 800 600 node_5 "label" (JString "copy")
           store_125).
  discriminate.
Defined.

Lemma addNode_save_fresh_witness :
  ∃ s, addNode 800 600 (Some (bare_node (JString "d"))) store_125
         ≫= saveEditedNode = Return s ∧
       nodes s = nodes store_125 ++ [bare_node (JString "d")] ∧
       edges s = strip_edge <$> edges store_125 ∧
       isDialogOpen s = false ∧ nodeInfo s = None.
Proof.
  apply (addNode_save_fresh 800 600 (bare_node (JString "d")) store_125).
  apply (bool_decide_unpack _). vm_compute. exact I.
Defined.

(** After a deletion the node count is an identifier in use: the duplicate
    of [a] in a collection that lost its first node gets the identifier of
    the last one. *)
Example duplicateNode_reuses_identifier :
  ∃ s1 s2,
    deleteNode (bare_node (JString "0"))
      (store_of ∅ [bare_node (JString "0"); bare_node (JString "1");
                   bare_node (JString "2")] []) = Return s1 ∧
    duplicateNode 800 600 (bare_node (JString "1")) s1 = Return s2 ∧
    node_ids s2 = [JString "1"; JString "2"; JString "2"].
Proof. do 2 eexists. repeat split; reflexivity. Qed.

(** ** [useNodeFlowContext], again *)

(** X25.  [useNodeFlowContext] throws in no case: under a provider it
    returns the provider's value, without one the default value of the
    context, and the error of its guard is out of reach. *)
Theorem useNodeFlowContext_never_throws (provider : option Store) :
  (∀ e, useNodeFlowContext provider ≠ Throw e) ∧
  useNodeFlowContext provider =
    Return (match provider with
            | Some value => ContextOf value
            | None => nodeFlowContext
            end).
Proof. by destruct provider. Qed.

(** ** [setNodePersonaFunc], again *)

Section Personas.

Variables CANVAS_WIDTH CANVAS_HEIGHT : Q.

Local Abbreviation W := CANVAS_WIDTH.
Local Abbreviation H := CANVAS_HEIGHT.

Lemma perform_persona (a : action) (r s : Store) :
  loads_persona a = false → perform W H a r = Return s →
  nodePersona s = nodePersona r ∧ nodePersonaType s = nodePersonaType r.
Proof.
  intros Ha Hperform.
  destruct a as [| |topology| | |edge| |node|node|node|p v| |node|ns|es]; simpl in *.
  - by injection Hperform as <-.
  - by injection Hperform as <-.
  - done.
  - by injection Hperform as <-.
  - by injection Hperform as <-.
  - by injection Hperform as <-.
  - by injection Hperform as <-.
  - apply addNode_Return in Hperform as (n & h & _ & ->). done.
  - by injection Hperform as <-.
  - destruct (duplicateNode_Return W H node r) as (l & o & _ & Hdup).
    rewrite Hdup in Hperform. by injection Hperform as <-.
  - unfold updateNodeInfo in Hperform. destruct (nodeInfo r) as [info|].
    + destruct (Node.data info); [|done]. by injection Hperform as <-.
    + by injection Hperform as <-.
  - destruct (saveEditedNode_cases r)
      as [[Hsame _]|(info & i & n & _ & _ & _ & _ & Hsave)];
      [rewrite Hsame in Hperform|rewrite Hsave in Hperform];
      by injection Hperform as <-.
  - rewrite deleteNode_unfold in Hperform. by injection Hperform as <-.
  - by injection Hperform as <-.
  - by injection Hperform as <-.
Qed.

Lemma createNewNode_Return_heap (r : Store) (n : Node.t) (h : heap_t) :
  createNewNode W H r = Return (n, h) →
  ∃ l o, heap r !! l = None ∧ h = <[l := o]> (heap r).
Proof.
  unfold createNewNode.
  destruct (array_filter _ (nodes r)) as [kept|e]; simpl; [|done].
  destruct (last (nodes r)) as [lastNode|]; simpl; [|done].
  intros [= _ <-]. do 2 eexists.
  split; [apply not_elem_of_dom, is_fresh|done].
Qed.

Lemma perform_heap (a : action) (r s : Store) (l : loc) :
  writes_data a = false → perform W H a r = Return s →
  is_Some (heap r !! l) → heap s !! l = heap r !! l.
Proof.
  intros Ha Hperform Hl.
  destruct a as [| |topology| | |edge| |node|node|node|p v| |node|ns|es];
    simpl in *.
  - by injection Hperform as <-.
  - by injection Hperform as <-.
  - by injection Hperform as <-.
  - by injection Hperform as <-.
  - by injection Hperform as <-.
  - by injection Hperform as <-.
  - by injection Hperform as <-.
  - apply addNode_Return in Hperform as (n & h & Hh & ->). simpl.
    destruct node as [given|]; [by destruct Hh as [_ ->]|].
    apply createNewNode_Return_heap in Hh as (l' & o & Hfresh & ->).
    rewrite lookup_insert_ne; [done|]. intros ->. rewrite Hfresh in Hl.
    by destruct Hl.
  - by injection Hperform as <-.
  - destruct (duplicateNode_Return W H node r) as (l' & o & Hfresh & Hdup).
    rewrite Hdup in Hperform. injection Hperform as <-. simpl.
    rewrite lookup_insert_ne; [done|]. intros ->. rewrite Hfresh in Hl.
    by destruct Hl.
  - done.
  - destruct (saveEditedNode_cases r)
      as [[Hsame _]|(info & i & n & _ & _ & _ & _ & Hsave)];
      [rewrite Hsame in Hperform|rewrite Hsave in Hperform];
      by injection Hperform as <-.
  - rewrite deleteNode_unfold in Hperform. by injection Hperform as <-.
  - by injection Hperform as <-.
  - by injection Hperform as <-.
Qed.

(** X26.  The recorded persona, its type and the contents of the data
    objects that exist (those of the persona's nodes among them) change
    under no call but [setNodePersonaFunc] and [updateNodeInfo]: after any
    sequence of calls of the others, raw setters included, they are what
    they were. *)
Theorem persona_changed_by_load_only (actions : list action) (r : Store) :
  Forall (λ a, loads_persona a = false ∧ writes_data a = false) actions →
  nodePersona (perform_all W H actions r) = nodePersona r ∧
  nodePersonaType (perform_all W H actions r) = nodePersonaType r ∧
  ∀ l, is_Some (heap r !! l) →
       heap (perform_all W H actions r) !! l = heap r !! l.
Proof.
  intros Hactions.
  apply (perform_all_invariant W H
           (λ s, nodePersona s = nodePersona r ∧
                 nodePersonaType s = nodePersonaType r ∧
                 ∀ l, is_Some (heap r !! l) → heap s !! l = heap r !! l)
           (λ a, loads_persona a = false ∧ writes_data a = false));
    [|done|done].
  intros a r' s [Ha Hw] (Hp & Ht & Hheap) Hperform.
  destruct (perform_persona a r' s Ha Hperform) as [-> ->].
  split; [done|]. split; [done|]. intros l Hl.
  rewrite <-(Hheap l Hl). apply (perform_heap a r' s l Hw Hperform).
  by rewrite (Hheap l Hl).
Qed.

(** X27.  Loading a persona takes no notice of an edit in flight: the
    dialog flag and the buffer stay, and saving afterwards puts the old
    buffer in the place of the first node of the new collection that has
    its identifier. *)
Theorem persona_load_keeps_edit (topology : NetworkTopology.t) (info : Node.t)
    (r : Store) :
  nodeInfo r = Some info →
  Exists (λ n, Node.id n = Node.id info)
         (NodePersona.nodes (NetworkTopology.nodePersona topology)) →
  ∃ s1 s2 i n,
    setNodePersonaFunc topology r = Return s1 ∧
    nodeInfo s1 = Some info ∧ isDialogOpen s1 = isDialogOpen r ∧
    saveEditedNode s1 = Return s2 ∧
    NodePersona.nodes (NetworkTopology.nodePersona topology) !! i = Some n ∧
    Node.id n = Node.id info ∧
    (∀ j m, j < i →
       NodePersona.nodes (NetworkTopology.nodePersona topology) !! j = Some m →
       Node.id m ≠ Node.id info) ∧
    nodes s2 =
      <[i := info]> (NodePersona.nodes (NetworkTopology.nodePersona topology)) ∧
    nodeInfo s2 = None ∧ isDialogOpen s2 = false.
Proof.
  intros Hinfo Hex. unfold setNodePersonaFunc.
  match goal with |- ∃ s1 s2 i n, Return ?s = _ ∧ _ =>
    destruct (saveEditedNode_cases s)
      as [[_ [Hnone|(info' & Hinfo' & Hnot)]]
         |(info' & i & n & Hinfo' & Hn & Hid & Hfirst & Hsave)]
  end; simpl in *.
  - congruence.
  - assert (info' = info) as -> by congruence. done.
  - assert (info' = info) as -> by congruence.
    do 4 eexists. split; [reflexivity|]. simpl.
    split; [done|]. split; [done|]. split; [exact Hsave|]. simpl. done.
Qed.

(** X28.  A node given to [addNode] shares its data object with the edit
    buffer: a property written in the dialog reads back from the last node
    of the collection before anything is saved.  The property is any but
    "__proto__". *)
Theorem addNode_edit_shows_unsaved (node : Node.t) (l : loc) (p : string)
    (v : jsval) (r : Store) :
  p ≠ "__proto__" →
  Node.data node = Some l →
  is_Some (heap r !! l) →
  ∃ s, addNode W H (Some node) r ≫= updateNodeInfo p v = Return s ∧
       last (nodes s) = Some node ∧ nodeInfo s = Some node ∧
       isDialogOpen s = true ∧
       get (heap s) l p = v.
Proof.
  intros _ Hdata Hobj. unfold addNode. simpl.
  rewrite (updateNodeInfo_write p v _ node l) by done. simpl.
  eexists. split; [reflexivity|]. simpl.
  split; [apply last_snoc|]. split; [done|]. split; [done|].
  by apply get_put_eq.
Qed.

End Personas.

Lemma persona_changed_by_load_only_witness :
  nodePersona (perform_all 800 600 quiet_session store_loaded) =
    nodePersona store_loaded ∧
  nodePersonaType (perform_all 800 600 quiet_session store_loaded) =
    nodePersonaType store_loaded ∧
  ∀ l, is_Some (heap store_loaded !! l) →
       heap (perform_all 800 600 quiet_session store_loaded) !! l =
       heap store_loaded !! l.
Proof.
  apply (persona_changed_by_load_only 800 600 quiet_session store_loaded).
  apply (bool_decide_unpack _). vm_compute. exact I.
Defined.

Lemma persona_load_keeps_edit_witness :
  ∃ s1 s2 i n,
    setNodePersonaFunc
      (NetworkTopology.mk "star" (NodePersona.mk [node_1; node_2; node_2] [] ∅))
      store_125 = Return s1 ∧
    nodeInfo s1 = Some copy_of_2 ∧ isDialogOpen s1 = isDialogOpen store_125 ∧
    saveEditedNode s1 = Return s2 ∧
    [node_1; node_2; node_2] !! i = Some n ∧
    Node.id n = Node.id copy_of_2 ∧
    (∀ j m, j < i → [node_1; node_2; node_2] !! j = Some m →
            Node.id m ≠ Node.id copy_of_2) ∧
    nodes s2 = <[i := copy_of_2]> [node_1; node_2; node_2] ∧
    nodeInfo s2 = None ∧ isDialogOpen s2 = false.
Proof.
  apply (persona_load_keeps_edit
           (NetworkTopology.mk "star" (NodePersona.mk [node_1; node_2; node_2] [] ∅))
           copy_of_2 store_125).
  - reflexivity.
  - apply (bool_decide_unpack _). vm_compute. exact I.
Defined.

Lemma addNode_edit_shows_unsaved_witness :
  ∃ s, addNode 800 600 (Some node_2) store_125
         ≫= updateNodeInfo "label" (JString "deux") = Return s ∧
       last (nodes s) = Some node_2 ∧ nodeInfo s = Some node_2 ∧
       isDialogOpen s = true ∧
       get (heap s) 2%positive "label" = JString "deux".
Proof.
  apply (addNode_edit_shows_unsaved 800 600 node_2 2%positive "label"
           (JString "deux") store_125).
  - discriminate.
  - reflexivity.
  - eexists. vm_compute. reflexivity.
Defined.
